(** * Visage: a shallow embedding of [visage.go]

    The program discovers Storybook stories under a project root, renders
    each of them in a headless browser and reduces the rendering to three
    hashes.  This development embeds the Go source function by function:
    pure string code becomes Rocq functions on [string] (a Go string is a
    sequence of bytes, and so is a Rocq [string]); fallible code returns
    the Go pair [(value, err)]; the browser, the file system and the third
    party libraries are interfaces ([Lib], [Browser], [FS]) that the
    functions take as arguments; the goroutines of [Config.Check] are an
    interleaving step relation on the state of the worker pool. *)

From Stdlib Require Import ZArith Lia Ascii String Strings.Byte.
From stdpp Require Import base option list strings gmap relations.

Local Open Scope string_scope.
Local Open Scope Z_scope.
Local Open Scope list_scope.
Set Warnings "-register-all".

(** ** Go's [strings] and [fmt], on byte strings *)

(** [strings.HasPrefix]. *)
Fixpoint HasPrefix (s prefix : string) : bool :=
  match prefix, s with
  | EmptyString, _ => true
  | String _ _, EmptyString => false
  | String c p, String d s' => Ascii.eqb c d && HasPrefix s' p
  end.

(** [strings.Contains]: [substr] occurs somewhere in [s]; the empty
    string occurs in every string. *)
Fixpoint Contains (s substr : string) : bool :=
  HasPrefix s substr
  || match s with
     | EmptyString => false
     | String _ s' => Contains s' substr
     end.

Fixpoint string_drop (n : nat) (s : string) : string :=
  match n, s with
  | O, _ => s
  | S _, EmptyString => EmptyString
  | S k, String _ s' => string_drop k s'
  end.

(** [strings.CutPrefix]. *)
Definition CutPrefix (s prefix : string) : string * bool :=
  if HasPrefix s prefix then (string_drop (String.length prefix) s, true)
  else (s, false).

(** The loop of [strings.Split] for a separator that is not empty: the
    separators are found from the left and do not overlap.  [skip] counts
    the bytes of a separator that are still to be passed over and [cur]
    is the piece read so far. *)
Fixpoint genSplit (sep : string) (skip : nat) (cur s : string) : list string :=
  match s with
  | EmptyString => [cur]
  | String c s' =>
      match skip with
      | S k => genSplit sep k cur s'
      | O =>
          if HasPrefix s sep
          then cur :: genSplit sep (String.length sep - 1) EmptyString s'
          else genSplit sep 0 (cur +:+ String c EmptyString) s'
      end
  end.

(** With the empty separator Go cuts after every UTF-8 sequence, here
    after every byte; the program only splits on ["/"], ["."] and the
    line feed. *)
Fixpoint explode (s : string) : list string :=
  match s with
  | EmptyString => []
  | String c s' => String c EmptyString :: explode s'
  end.

(** [strings.Split]; [strings.SplitSeq] yields the same pieces in the
    same order. *)
Definition Split (s sep : string) : list string :=
  match sep with
  | EmptyString => explode s
  | String _ _ => genSplit sep 0 EmptyString s
  end.

Definition SplitSeq (s sep : string) : list string := Split s sep.

(** [strings.Join]. *)
Fixpoint Join (elems : list string) (sep : string) : string :=
  match elems with
  | [] => EmptyString
  | [a] => a
  | a :: rest => a +:+ sep +:+ Join rest sep
  end.

(** How [%v] prints a slice of errors: the messages between brackets,
    a space between two of them. *)
Definition fmt_errors (errs : list string) : string :=
  "[" +:+ Join errs " " +:+ "]".

(** [fmt.Sprintf] (and the message of [fmt.Errorf]) for the formats of
    the program: the verbs are [%s] and [%v], and every argument is given
    as the text it prints as.  An argument is copied as it is (a [%]
    inside it is not a verb); a verb without an argument prints as Go
    prints it. *)
Fixpoint Sprintf (format : string) (args : list string) : string :=
  match format with
  | String "%" (String "s" rest) =>
      match args with
      | a :: args' => a +:+ Sprintf rest args'
      | [] => "%!s(MISSING)" +:+ Sprintf rest []
      end
  | String "%" (String "v" rest) =>
      match args with
      | a :: args' => a +:+ Sprintf rest args'
      | [] => "%!v(MISSING)" +:+ Sprintf rest []
      end
  | String c rest => String c (Sprintf rest args)
  | EmptyString => EmptyString
  end.

Definition LF : string := String "010" EmptyString.
Definition DQUOTE : string := String "034" EmptyString.

(** ** Constants and data model *)

Definition ORGANISM_TYPE_DRAFT := "draft".
Definition ORGANISM_TYPE_FOUNDATION := "foundation".
Definition ORGANISM_TYPE_ATOM := "atom".
Definition ORGANISM_TYPE_MOLECULE := "molecule".
Definition ORGANISM_TYPE_ORGANISM := "organism".
Definition ORGANISM_TYPE_TEMPLATE := "template".
Definition ORGANISM_TYPE_PAGE := "page".

Definition REGRESSION_TEST_STATUS_CREATED := "created".
Definition REGRESSION_TEST_STATUS_FAILED := "failed".
Definition REGRESSION_TEST_STATUS_PASSED := "passed".
Definition REGRESSION_TEST_STATUS_SKIPPED := "skipped".

(** A Go [error] is modelled by its message. *)
Definition error := string.

Record Story := mkStory {
  Path : string;
  Name : string;
  OrganismType : string;
  ComponentName : string
}.

Record RegressionTest := mkRegressionTest {
  Component : string;
  Viewport : string;
  DomHash : string;
  StyleHash : string;
  VisualHash : string;
  TimeStamp : Z  (* int64 *)
}.

Record RegressionTestResult := mkRegressionTestResult {
  Status : string;
  CurrentTest : RegressionTest;
  ExpectedTest : RegressionTest
}.

Record Config := mkConfig {
  BaseURL : string;
  RootElement : string;
  MaxThreads : Z  (* int *)
}.

(** [Story.GetOrganismTypeString]. *)
Definition Story_GetOrganismTypeString (s : Story) : string :=
  if String.eqb (OrganismType s) ORGANISM_TYPE_ATOM then "atoms"
  else if String.eqb (OrganismType s) ORGANISM_TYPE_MOLECULE then "molecules"
  else if String.eqb (OrganismType s) ORGANISM_TYPE_ORGANISM then "organisms"
  else if String.eqb (OrganismType s) ORGANISM_TYPE_TEMPLATE then "templates"
  else if String.eqb (OrganismType s) ORGANISM_TYPE_PAGE then "pages"
  else if String.eqb (OrganismType s) ORGANISM_TYPE_FOUNDATION then "foundations"
  else if String.eqb (OrganismType s) ORGANISM_TYPE_DRAFT then "drafts"
  else "drafts".

(** ** Interfaces of the libraries and of the outside world *)

(** [net/url.URL]. *)
Record URL := mkURL {
  Scheme : string;
  Opaque : string;
  User : option (string * option string);
  Host : string;
  URL_Path : string;
  RawPath : string;
  OmitHost : bool;
  ForceQuery : bool;
  RawQuery : string;
  Fragment : string;
  RawFragment : string
}.

(** [u.Path = p] and [u.RawQuery = q]. *)
Definition set_Path (u : URL) (p : string) : URL :=
  mkURL (Scheme u) (Opaque u) (User u) (Host u) p (RawPath u)
        (OmitHost u) (ForceQuery u) (RawQuery u) (Fragment u) (RawFragment u).

Definition set_RawQuery (u : URL) (q : string) : URL :=
  mkURL (Scheme u) (Opaque u) (User u) (Host u) (URL_Path u) (RawPath u)
        (OmitHost u) (ForceQuery u) q (Fragment u) (RawFragment u).

(** The library functions the program calls and that are not byte-level
    string code: [net/url], [fatih/camelcase], the Unicode-aware
    [strings.ToLower], [haochi/blockhash-go], the two digests and
    [path/filepath.Join].  A call that returns [(v, err)] is a sum. *)
Class Lib := {
  url_Parse : string → error + URL;
  url_String : URL → string;
  camelcase_Split : string → list string;
  ToLower : string → string;
  (** [blockhash.Blockhash(reader, bits)] followed by [ToHex]. *)
  Blockhash : list byte → Z → error + string;
  (** [sha1.New], [Write], [Sum(nil)] as a string of 20 bytes. *)
  sha1_Sum : string → string;
  (** [md5.New], [Write], [Sum(nil)] as a string of 16 bytes. *)
  md5_Sum : string → string;
  filepath_Join : list string → string
}.

(** A browser session behind a [chromedp] context.  [B] is the state of
    the session; every operation may fail (also when the deadline of the
    context has passed) or move the session on. *)
Class Browser (B : Type) := {
  (** the session behind the context that the goroutine of the [i]-th
      story makes with [chromedp.NewExecAllocator], [chromedp.NewContext]
      and [context.WithTimeout] of 30 seconds *)
  NewContext : nat → B;
  (** what [chromedp.Run] does before the first action: start the
      browser and attach to a target if the context has none yet *)
  launch : B → error + B;
  navigate : string → B → error + B;
  waitVisible : string → B → error + B;
  waitReady : string → B → error + B;
  sleep : Z → B → error + B;
  captureScreenshot : string → B → error + (list byte * B);
  evaluate : string → B → error + (string * B)
}.

(** The variables of [Story.Check] that the actions write through a
    pointer. *)
Record Vars := mkVars {
  screenshot : list byte;
  html : string;
  style : string
}.

Definition zero_Vars : Vars := mkVars [] EmptyString EmptyString.

Inductive Dst := dst_html | dst_style.

(** The [chromedp] actions of the program; the selectors are looked up
    [chromedp.ByID]. *)
Inductive Action :=
| Navigate (urlstr : string)
| WaitVisible (sel : string)
| WaitReady (sel : string)
| Sleep (seconds : Z)
| Screenshot (sel : string)
| EvaluateAsDevTools (expression : string) (res : Dst).

Section Capture.
Context `{lib : Lib} {B : Type} `{br : Browser B}.

(** [Action.Do]. *)
Definition Do (a : Action) (st : B * Vars) : error + (B * Vars) :=
  let '(b, v) := st in
  match a with
  | Navigate u => match navigate u b with inl e => inl e | inr b' => inr (b', v) end
  | WaitVisible sel => match waitVisible sel b with inl e => inl e | inr b' => inr (b', v) end
  | WaitReady sel => match waitReady sel b with inl e => inl e | inr b' => inr (b', v) end
  | Sleep d => match sleep d b with inl e => inl e | inr b' => inr (b', v) end
  | Screenshot sel =>
      match captureScreenshot sel b with
      | inl e => inl e
      | inr (buf, b') => inr (b', mkVars buf (html v) (style v))
      end
  | EvaluateAsDevTools q dst =>
      match evaluate q b with
      | inl e => inl e
      | inr (r, b') =>
          inr (b', match dst with
                   | dst_html => mkVars (screenshot v) r (style v)
                   | dst_style => mkVars (screenshot v) (html v) r
                   end)
      end
  end.

(** [chromedp.Tasks.Do]: the actions in order, the first error ends
    the run. *)
Fixpoint Tasks_Do (tasks : list Action) (st : B * Vars) : (B * Vars) * option error :=
  match tasks with
  | [] => (st, None)
  | a :: rest =>
      match Do a st with
      | inl e => (st, Some e)
      | inr st' => Tasks_Do rest st'
      end
  end.

(** [chromedp.Run]. *)
Definition chromedp_Run (ctx : B) (tasks : list Action) (v : Vars) : (B * Vars) * option error :=
  match launch ctx with
  | inl e => ((ctx, v), Some e)
  | inr b => Tasks_Do tasks (b, v)
  end.

(** [Story.Check], lines 103 to 109: the URL to navigate to. *)
Definition Check_target (s : Story) (u : URL) : URL :=
  let u := set_Path u "iframe.html" in
  let name := camelcase_Split (Name s) in
  set_RawQuery u
    (Sprintf "globals=viewport:full&args=&id=%s-%s--%s&viewMode=story"
       [Story_GetOrganismTypeString s;
        ToLower (ComponentName s);
        ToLower (Join name "-")]).

(** [Story.Check], lines 120 to 135: the actions handed to
    [chromedp.Run]. *)
Definition Check_tasks (config : Config) (u : URL) : list Action :=
  let id := fst (CutPrefix (RootElement config) "#") in
  let htmlQuery :=
    Sprintf ("document.querySelector(" +:+ DQUOTE +:+ "#%s" +:+ DQUOTE +:+ ").outerHTML") [id] in
  let cssQuery := "document.styleSheets[0].cssRules[0].cssText" in
  [ Navigate (url_String u);
    WaitVisible id;
    WaitReady id;
    Sleep 1;
    Screenshot id;
    EvaluateAsDevTools htmlQuery dst_html;
    EvaluateAsDevTools cssQuery dst_style ].

(** [Story.Check], lines 141 to 170: hashing and the result. *)
Definition Check_result (s : Story) (v : Vars) : option RegressionTestResult * option error :=
  match Blockhash (screenshot v) 16 with
  | inl err => (None, Some err)
  | inr visualHash =>
      let styleHash := sha1_Sum (style v) in
      let domHash := md5_Sum (html v) in
      let test := {| Component := Name s;
                     Viewport := "full";
                     DomHash := domHash;
                     StyleHash := styleHash;
                     VisualHash := visualHash;
                     TimeStamp := 0 |} in
      let result := {| Status := REGRESSION_TEST_STATUS_CREATED;
                       CurrentTest := test;
                       ExpectedTest := test |} in
      (Some result, None)
  end.

(** [Story.Check]: the pair [(result, err)] it returns; [None] is
    [nil].  What it prints is not modelled. *)
Definition Story_Check (s : Story) (ctx : B) (config : Config)
  : option RegressionTestResult * option error :=
  match url_Parse (BaseURL config) with
  | inl err => (None, Some err)
  | inr u =>
      let u := Check_target s u in
      match chromedp_Run ctx (Check_tasks config u) zero_Vars with
      | (_, Some err) => (None, Some err)
      | ((_, v), None) => Check_result s v
      end
  end.
End Capture.

(** ** The file system *)

(** What [filepath.Walk] finds at a path: [Bad e] when [os.Lstat] fails
    with [e], a file, or a directory with the outcome of reading its
    names ([rd], an error or none) and its entries in lexical order. *)
Inductive tree :=
| Bad (e : error)
| File
| Dir (rd : option error) (entries : list (string * tree)).

(** Induction on a tree with the entries of a directory as hypotheses. *)
Section TreeInduction.
Variable P : tree → Prop.
Hypothesis HBad : ∀ e, P (Bad e).
Hypothesis HFile : P File.
Hypothesis HDir : ∀ rd es, Forall (λ nt, P nt.2) es → P (Dir rd es).

Fixpoint tree_nested_ind (t : tree) : P t :=
  match t with
  | Bad e => HBad e
  | File => HFile
  | Dir rd es =>
      HDir rd es
        ((fix entries (es : list (string * tree)) : Forall (λ nt, P nt.2) es :=
            match es with
            | [] => Forall_nil_2 _
            | (n, t') :: r => Forall_cons_2 _ (n, t') r (tree_nested_ind t') (entries r)
            end) es)
  end.
End TreeInduction.

Class FS := {
  os_Stat : string → option error;
  os_IsNotExist : error → bool;
  os_Open : string → option error;
  io_ReadAll : string → error + string;
  os_Lstat_tree : string → tree
}.

(** The order in which [range] visits the keys of a map: every key once,
    in an order the runtime chooses. *)
Class Runtime := {
  range_order : list string → list string;
  range_order_perm : ∀ keys, range_order keys ≡ₚ keys
}.

(** The error a [filepath.WalkFunc] returns: [filepath.SkipDir] or
    another error ([filepath.SkipAll] is not used by the program). *)
Inductive WalkErr :=
| SkipDir
| Fail (e : error).

Section Discovery.
Context `{lib : Lib} `{fs : FS} `{rt : Runtime}.

(** [FileExists]. *)
Definition FileExists (path : string) : bool :=
  match os_Stat path with
  | Some err => if os_IsNotExist err then false else false (* err == nil *)
  | None => true
  end.

(** [ReadFileToString]. *)
Definition ReadFileToString (path : string) : string * option error :=
  match os_Open path with
  | Some err => (EmptyString, Some err)
  | None =>
      match io_ReadAll path with
      | inl err => (EmptyString, Some err)
      | inr content => (content, None)
      end
  end.

Definition builtin_ignoreFiles : list string :=
  [ "patches"; "node_modules"; ".DS_Store"; ".idea"; ".vscode"; "dist";
    "build"; "coverage"; "out"; "tmp"; "temp"; "*.log"; "*.tmp" ].

(** The test of line 278: the line is not empty and its first byte is
  not [#]. *)
Definition keep_line (line : string) : bool :=
  match line with
  | EmptyString => false
  | String c _ => negb (Ascii.eqb c "#")
  end.

(** [GetIgnoreFiles], lines 277 to 295: the lines are appended, the
    map removes duplicates and its keys are read back in the order of
    [range]. *)
Definition merge_ignoreFiles (ignoreFiles : list string) (content : string) : list string :=
  let ignoreFiles :=
    foldl (λ acc line, if keep_line line then acc ++ [line] else acc)
          ignoreFiles (SplitSeq content LF) in
  let ignoreFilesMap : gmap string bool :=
    foldl (λ m line, <[line := true]> m) ∅ ignoreFiles in
  range_order (map_to_list ignoreFilesMap).*1.

(** [GetIgnoreFiles]. *)
Definition GetIgnoreFiles (path : string) : list string * option error :=
  let ignoreFiles := builtin_ignoreFiles in
  let path1 := filepath_Join [path; ".gitignore"] in
  let path2 := filepath_Join [path; ".."; ".gitignore"] in
  if FileExists path1 then
    match ReadFileToString path1 with
    | (_, Some err) => ([], Some err)
    | (c, None) => (merge_ignoreFiles ignoreFiles c, None)
    end
  else if FileExists path2 then
    match ReadFileToString path2 with
    | (_, Some err) => ([], Some err)
    | (c, None) => (merge_ignoreFiles ignoreFiles c, None)
    end
  else (ignoreFiles, None).

(** [filepath.Walk]'s recursion.  [walkFn path info err] gets
    [info = Some isDir], or [None] for the nil [FileInfo] that comes
    with an [os.Lstat] error. *)
Section Walk.
Context {S : Type}
        (walkFn : string → option bool → option error → S → S * option WalkErr).

Fixpoint walk (path : string) (t : tree) (st : S) : S * option WalkErr :=
  match t with
  | Bad e => walkFn path None (Some e) st
  | File => walkFn path (Some false) None st
  | Dir rd entries =>
      let '(st1, err1) := walkFn path (Some true) rd st in
      if bool_decide (rd ≠ None ∨ err1 ≠ None) then (st1, err1)
      else
        (fix children (es : list (string * tree)) (st : S) : S * option WalkErr :=
           match es with
           | [] => (st, None)
           | (name, child) :: rest =>
               let filename := filepath_Join [path; name] in
               match child with
               | Bad e =>
                   match walkFn filename None (Some e) st with
                   | (st', Some (Fail x)) => (st', Some (Fail x))
                   | (st', _) => children rest st'
                   end
               | File =>
                   match walk filename child st with
                   | (st', Some err) => (st', Some err)
                   | (st', None) => children rest st'
                   end
               | Dir _ _ =>
                   match walk filename child st with
                   | (st', Some (Fail x)) => (st', Some (Fail x))
                   | (st', _) => children rest st'
                   end
               end
           end) entries st1
  end.

Definition filepath_Walk (root : string) (st : S) : S * option error :=
  match walk root (os_Lstat_tree root) st with
  | (st', Some SkipDir) => (st', None)
  | (st', Some (Fail e)) => (st', Some e)
  | (st', None) => (st', None)
  end.
End Walk.

(** The function literal of [WalkDir]; its state is the slice [files]. *)
Definition WalkDir_fn (ignores : list string) (filePath : string)
    (info : option bool) (err : option error) (files : list string)
  : list string * option WalkErr :=
  match err with
  | Some e => (files, Some (Fail e))
  | None =>
      if default false info (* info.IsDir() *) then
        if existsb (Contains filePath) ignores then (files, Some SkipDir)
        else (files, None)
      else if existsb (Contains filePath) ignores then (files, None)
      else (files ++ [filePath], None)
  end.

(** [WalkDir]. *)
Definition WalkDir (path : string) (ignores : list string) : list string * option error :=
  match filepath_Walk (WalkDir_fn ignores) path [] with
  | (_, Some err) => ([], Some err)
  | (files, None) => (files, None)
  end.

(** The class [\w] of the regular expression. *)
Definition is_word (c : ascii) : bool :=
  let n := nat_of_ascii c in
  ((48 <=? n) && (n <=? 57) || (65 <=? n) && (n <=? 90) || (n =? 95)
   || (97 <=? n) && (n <=? 122))%nat.

(** The longest run of [\w] at the start of [s], and what follows it. *)
Fixpoint take_word (s : string) : string * string :=
  match s with
  | EmptyString => (EmptyString, EmptyString)
  | String c s' =>
      if is_word c then let '(w, rest) := take_word s' in (String c w, rest)
      else (EmptyString, s)
  end.

(** A match of [export const (\w+): Story] that starts at the first
    byte of [s]: the text matched and the group.  The byte after [\w+]
    has to be a colon, which is not in [\w], so the group is the
    longest run. *)
Definition match_story_at (s : string) : option (list string) :=
  let '(rest, found) := CutPrefix s "export const " in
  if found then
    let '(w, rest') := take_word rest in
    if negb (String.eqb w EmptyString) && HasPrefix rest' ": Story"
    then Some ["export const " +:+ w +:+ ": Story"; w]
    else None
  else None.

(** [r.FindAllStringSubmatch(content, -1)]: the matches from the left,
    none overlapping another; [skip] counts the bytes of the last match
    still to be passed over. *)
Fixpoint FindAllStringSubmatch (skip : nat) (content : string) : list (list string) :=
  match content with
  | EmptyString => []
  | String _ content' =>
      match skip with
      | S k => FindAllStringSubmatch k content'
      | O =>
          match match_story_at content with
          | Some m =>
              m :: FindAllStringSubmatch (String.length (nth 0 m EmptyString) - 1) content'
          | None => FindAllStringSubmatch 0 content'
          end
      end
  end.

(** [GetAllStories], lines 358 to 368. *)
Definition componentName_of (p : string) : string * option error :=
  let parts := Split p "/" in
  if Z.of_nat (length parts) <=? 0 then
    (EmptyString, Some (Sprintf "invalid path: %s" [p]))
  else
    let lastPart := nth (length parts - 1) parts EmptyString in
    let fileParts := Split lastPart "." in
    if Z.of_nat (length fileParts) <=? 0 then
      (EmptyString, Some (Sprintf "invalid file name: %s" [lastPart]))
    else (nth 0 fileParts EmptyString, None).

(** [GetAllStories], lines 372 to 389. *)
Definition organismType_of (p : string) : string :=
  if Contains p "99-drafts" then ORGANISM_TYPE_DRAFT
  else if Contains p "00-foundations" then ORGANISM_TYPE_FOUNDATION
  else if Contains p "10-atoms" then ORGANISM_TYPE_ATOM
  else if Contains p "20-molecules" then ORGANISM_TYPE_MOLECULE
  else if Contains p "30-organisms" then ORGANISM_TYPE_ORGANISM
  else if Contains p "40-templates" then ORGANISM_TYPE_TEMPLATE
  else if Contains p "50-pages" then ORGANISM_TYPE_PAGE
  else ORGANISM_TYPE_DRAFT.

(** The loop over [matches], lines 371 to 401. *)
Definition add_stories (p componentName : string) (matches : list (list string))
    (stories : list Story) : list Story :=
  foldl (λ stories m,
           let organismType := organismType_of p in
           let story := {| Name := nth 1 m EmptyString;
                           Path := p;
                           ComponentName := componentName;
                           OrganismType := organismType |} in
           stories ++ [story])
        stories matches.

(** The loop over [paths], lines 345 to 403.  The regular expression
    is a constant that compiles, so [regexp.Compile] returns no error. *)
Fixpoint GetAllStories_loop (paths : list string) (stories : list Story)
  : list Story * option error :=
  match paths with
  | [] => (stories, None)
  | p :: rest =>
      match ReadFileToString p with
      | (_, Some err) => ([], Some err)
      | (content, None) =>
          let matches := FindAllStringSubmatch 0 content in
          match componentName_of p with
          | (_, Some err) => ([], Some err)
          | (componentName, None) =>
              let stories :=
                if (0 <? length matches)%nat
                then add_stories p componentName matches stories
                else stories in
              GetAllStories_loop rest stories
          end
      end
  end.

(** [GetAllStories]. *)
Definition GetAllStories (path : string) : list Story * option error :=
  match GetIgnoreFiles path with
  | (_, Some err) => ([], Some err)
  | (ignores, None) =>
      match WalkDir path ignores with
      | (_, Some err) => ([], Some err)
      | (paths, None) => GetAllStories_loop paths []
      end
  end.
End Discovery.

(** ** The worker pool of [Config.Check] *)

(** Where the goroutine of a story stands:
    - [Spawned]: started, before [sem <- struct{}{}];
    - [Acquired]: the send on [sem] is done;
    - [Allocated]: the allocator, the browser context and the deadline
      exist;
    - [Checked]: [story.Check] has returned and its result or its error
      is in the channel;
    - [Released]: [<-sem] is done;
    - [Done]: the deferred [cancelTimeout], [cancelCtx], [cancel] and
      [wg.Done] have run. *)
Inductive pc := Spawned | Acquired | Allocated | Checked | Released | Done.

#[global] Instance pc_eq_dec : EqDecision pc.
Proof. solve_decision. Defined.

(** The shared state: the goroutines, the number of values buffered in
    [sem], and the contents of the channels [results] and [errors]. *)
Record Pool := mkPool {
  workers : list pc;
  sem : nat;
  results : list (option RegressionTestResult);
  errors : list error
}.

(** What a call produces: it returns the Go pair, or it panics. *)
Inductive Outcome :=
| Returns (res : list RegressionTestResult) (err : option error)
| Panics.

Definition holds_permit (w : pc) : bool :=
  match w with Acquired | Allocated | Checked => true | _ => false end.

Definition context_live (w : pc) : bool :=
  match w with Allocated | Checked | Released => true | _ => false end.

(** The number of goroutines in a set of places. *)
Definition count (f : pc → bool) (ws : list pc) : nat :=
  sum_list_with (λ w, if f w then 1%nat else 0%nat) ws.

(** The goroutines between their send on [sem] and their receive from
    it, and the browser contexts that exist. *)
Definition permits_held (p : Pool) : nat := count holds_permit (workers p).

Definition live_contexts (p : Pool) : nat := count context_live (workers p).

Section Orchestrator.
Context `{lib : Lib} {B : Type} `{br : Browser B}.

Section Workers.
Variables (c : Config) (stories : list Story).

(** What the goroutine of the [i]-th story puts into a channel.  Every
    iteration of the loop has its own [story] variable (the program uses
    [strings.SplitSeq], so it is built with per-iteration loop
    variables), and the goroutine checks it in a session of its own. *)
Definition deliver (i : nat) (s : Story) (p : Pool) : Pool :=
  match Story_Check s (NewContext i) c with
  | (_, Some err) =>
      mkPool (<[i := Checked]> (workers p)) (sem p) (results p) (errors p ++ [err])
  | (result, None) =>
      mkPool (<[i := Checked]> (workers p)) (sem p) (results p ++ [result]) (errors p)
  end.

(** One step of one goroutine.  A send on [sem] goes through when
    the buffer has room, a receive when the buffer is not empty; on
    a channel of capacity 0 a send and a receive go through
    together. *)
Inductive step : Pool → Pool → Prop :=
| step_acquire i p :
    workers p !! i = Some Spawned →
    Z.of_nat (sem p) < MaxThreads c →
    step p (mkPool (<[i := Acquired]> (workers p)) (S (sem p)) (results p) (errors p))
| step_handoff i j p :
    MaxThreads c = 0 →
    workers p !! i = Some Spawned →
    workers p !! j = Some Checked →
    step p (mkPool (<[j := Released]> (<[i := Acquired]> (workers p)))
                   (sem p) (results p) (errors p))
| step_allocate i p :
    workers p !! i = Some Acquired →
    step p (mkPool (<[i := Allocated]> (workers p)) (sem p) (results p) (errors p))
| step_check i s p :
    workers p !! i = Some Allocated →
    stories !! i = Some s →
    step p (deliver i s p)
| step_release i p :
    workers p !! i = Some Checked →
    (0 < sem p)%nat →
    step p (mkPool (<[i := Released]> (workers p)) (pred (sem p)) (results p) (errors p))
| step_teardown i p :
    workers p !! i = Some Released →
    step p (mkPool (<[i := Done]> (workers p)) (sem p) (results p) (errors p)).

(** After the loop of [go] statements. *)
Definition init_pool : Pool :=
  mkPool (replicate (length stories) Spawned) 0 [] [].

(** [wg.Wait] returns when every goroutine has called [wg.Done]. *)
Definition all_done (p : Pool) : Prop := Forall (λ w, w = Done) (workers p).

#[global] Instance all_done_dec p : Decision (all_done p).
Proof. unfold all_done. apply _. Defined.
End Workers.

(** [*result] for every pointer read from [results]: [None] when one of
    them is nil. *)
Fixpoint deref_all (rs : list (option RegressionTestResult)) : option (list RegressionTestResult) :=
  match rs with
  | [] => Some []
  | Some r :: rest =>
      match deref_all rest with
      | Some l => Some (r :: l)
      | None => None
      end
  | None :: _ => None
  end.

(** [Config.Check], lines 452 to 469. *)
Definition collect (p : Pool) : Outcome :=
  match deref_all (results p) with
  | None => Panics
  | Some regressionTestResults =>
      let regressionTestErrors := errors p in
      if (0 <? length regressionTestErrors)%nat then
        Returns [] (Some (Sprintf "errors occurred during regression test: %v"
                                  [fmt_errors regressionTestErrors]))
      else Returns regressionTestResults None
  end.

Context `{fs : FS} `{rt : Runtime}.

(** [Config.Check]: the outcomes a call may have.  A call whose
    goroutines block for ever has none. *)
Inductive Config_Check (c : Config) (path : string) : Outcome → Prop :=
| Check_discovery_failed stories err :
    GetAllStories path = (stories, Some err) →
    Config_Check c path (Returns [] (Some err))
| Check_no_manifest stories :
    GetAllStories path = (stories, None) →
    FileExists (filepath_Join [path; "package.json"]) = false →
    Config_Check c path (Returns [] (Some (Sprintf "package.json not found in %s" [path])))
| Check_negative_capacity stories :
    GetAllStories path = (stories, None) →
    FileExists (filepath_Join [path; "package.json"]) = true →
    MaxThreads c < 0 →
    (* make(chan struct{}, c.MaxThreads) *)
    Config_Check c path Panics
| Check_joined stories p :
    GetAllStories path = (stories, None) →
    FileExists (filepath_Join [path; "package.json"]) = true →
    0 ≤ MaxThreads c →
    rtc (step c stories) (init_pool stories) p →
    all_done p →
    Config_Check c path (collect p).
End Orchestrator.

(** ** Configuration, environment and the command line *)

Record Environment := mkEnvironment {
  Cwd : string;
  Home : string;
  ConfigPath : string
}.

(** The rest of the outside world: the working directory, the home
    directory and [json.Unmarshal(data, &config)] on a zero [Config]. *)
Class OS := {
  os_Getwd : error + string;
  os_UserHomeDir : error + string;
  json_Unmarshal : string → error + Config
}.

(** How a piece of the command ends: with a value, in [log.Fatal] with
    the message it prints before [os.Exit(1)], or in a panic (the value
    of the panic is not kept). *)
Inductive Exit (A : Type) :=
| Value (a : A)
| Fatal (msg : string)
| Panic.

Arguments Value {A} a.
Arguments Fatal {A} msg.
Arguments Panic {A}.

Section CommandLine.
Context `{lib : Lib} {B : Type} `{br : Browser B} `{fs : FS} `{rt : Runtime} `{os : OS}.

(** [LoadConfig]: every [return] gives either the error or the
    configuration, so the pair is a sum here. *)
Definition LoadConfig (path : string) : error + Config :=
  match os_Open path with
  | Some err => inl err
  | None =>
      match io_ReadAll path with
      | inl err => inl err
      | inr byteValue =>
          match json_Unmarshal byteValue with
          | inl err => inl err
          | inr config =>
              if String.eqb (BaseURL config) EmptyString
              then inl "base_url is required"
              else inr config
          end
      end
  end.

(** [GetHomeDir] and [GetCwdDir]. *)
Definition GetHomeDir : Exit string :=
  match os_UserHomeDir with
  | inl _ => Panic
  | inr homeDir => Value homeDir
  end.

Definition GetCwdDir : Exit string :=
  match os_Getwd with
  | inl _ => Panic
  | inr cwd => Value cwd
  end.

(** [GetEnvironment]. *)
Definition GetEnvironment : Exit Environment :=
  match GetCwdDir with
  | Panic => Panic
  | Fatal msg => Fatal msg
  | Value cwd =>
      match GetHomeDir with
      | Panic => Panic
      | Fatal msg => Fatal msg
      | Value homeDir =>
          let homeConfigPath := filepath_Join [homeDir; ".config"; "visage.json"] in
          let localConfigPath := filepath_Join [cwd; "visage.json"] in
          if FileExists localConfigPath then
            Value (mkEnvironment cwd homeDir localConfigPath)
          else if FileExists homeConfigPath then
            Value (mkEnvironment cwd homeDir homeConfigPath)
          else Fatal "No config file found"
      end
  end.

(** [main], lines 496 to 506: the command, the environment and the
    configuration. *)
Definition main_prepare (args : list string) : Exit (string * Environment * Config) :=
  if (length args <? 2)%nat then Fatal "Usage: visage <command>"
  else
    let cmd := nth 1 args EmptyString in
    match GetEnvironment with
    | Panic => Panic
    | Fatal msg => Fatal msg
    | Value env =>
        match LoadConfig (ConfigPath env) with
        | inl err => Fatal err
        | inr config => Value (cmd, env, config)
        end
    end.

(** The project that the command [check] looks at. *)
Definition mockedFilePath (env : Environment) : string :=
  filepath_Join [Home env; "code"; "tuv-galaxy"; "component-library"; "project"].

(** [main], lines 523 to 527: what is printed for the results. *)
Definition report (res : list RegressionTestResult) : list string :=
  flat_map (λ result,
              [ Sprintf ("Component: %s, Status: %s" +:+ LF)
                        [Component (CurrentTest result); Status result];
                Sprintf ("Visual Hash: %s" +:+ LF) [VisualHash (CurrentTest result)];
                Sprintf ("Expected Visual Hash: %s" +:+ LF)
                        [VisualHash (ExpectedTest result)] ])
           res.

(** [main]: how a run of the command ends, and with [Value] what it
    prints for the results.  The context that [main] makes is handed to
    [Config.Check], which does not use it.  A run in which
    [Config.Check] blocks has none of these ends: the process hangs, or
    the Go runtime stops it with its own deadlock error. *)
Inductive main_run (args : list string) : Exit (list string) → Prop :=
| main_fatal msg :
    main_prepare args = Fatal msg →
    main_run args (Fatal msg)
| main_panic :
    main_prepare args = Panic →
    main_run args Panic
| main_unknown cmd env config :
    main_prepare args = Value (cmd, env, config) →
    cmd ≠ "check" →
    main_run args (Fatal "Unknown command")
| main_check_failed env config res err :
    main_prepare args = Value ("check", env, config) →
    Config_Check config (mockedFilePath env) (Returns res (Some err)) →
    main_run args (Fatal err)
| main_check_panics env config :
    main_prepare args = Value ("check", env, config) →
    Config_Check config (mockedFilePath env) Panics →
    main_run args Panic
| main_check_reported env config res :
    main_prepare args = Value ("check", env, config) →
    Config_Check config (mockedFilePath env) (Returns res None) →
    main_run args (Value (report res)).
End CommandLine.

(** A string of bytes of the class [\w]. *)
Fixpoint all_word (s : string) : bool :=
  match s with
  | EmptyString => true
  | String c s' => is_word c && all_word s'
  end.

(** ** The contracts of the specification, in its own words *)

(** The comparator of the specification: with no baseline the status is
    "created"; with a baseline it is "passed" when the perceptual, the
    markup and the style hash all equal the baseline's, and "failed" when
    one of them differs. *)
Definition hashes_equal (baseline current : RegressionTest) : bool :=
  String.eqb (VisualHash baseline) (VisualHash current)
  && String.eqb (DomHash baseline) (DomHash current)
  && String.eqb (StyleHash baseline) (StyleHash current).

Definition comparator_status (baseline : option RegressionTest) (current : RegressionTest) : string :=
  match baseline with
  | None => "created"
  | Some b => if hashes_equal b current then "passed" else "failed"
  end.

(** A result agrees with the comparator for the baseline that existed
    before the run. *)
Definition follows_comparator (baseline : option RegressionTest) (r : RegressionTestResult) : Prop :=
  Status r = comparator_status baseline (CurrentTest r).

(** The seven categories. *)
Definition categories : list string :=
  [ "draft"; "foundation"; "atom"; "molecule"; "organism"; "template"; "page" ].

(** The table of directory markers, in the order in which they are
    tried, and the category of a path: the first marker the path
    contains decides, and a path with none of them is a draft. *)
Definition category_markers : list (string * string) :=
  [ ("99-drafts", "draft"); ("00-foundations", "foundation"); ("10-atoms", "atom");
    ("20-molecules", "molecule"); ("30-organisms", "organism");
    ("40-templates", "template"); ("50-pages", "page") ].

Definition category_of (p : string) : string :=
  match List.find (λ mc, Contains p mc.1) category_markers with
  | Some mc => mc.2
  | None => "draft"
  end.

(** A story is filed under the category of its path. *)
Definition filed (s : Story) : Prop := OrganismType s = category_of (Path s).

(** The lines of a [.gitignore] that count: not empty and not starting
    with [#]. *)
Definition gitignore_tokens (content : string) : list string :=
  List.filter (λ line, negb (String.eqb line EmptyString) && negb (HasPrefix line "#"))
              (Split content LF).

Section SpecCapture.
Context `{lib : Lib}.

(** The story id of the navigation query: the plural of the category,
    the lower-cased component name, and the story name split at its
    camel-case boundaries, joined by hyphens and lower-cased. *)
Definition story_id (s : Story) : string :=
  Story_GetOrganismTypeString s +:+ "-" +:+ ToLower (ComponentName s)
    +:+ "--" +:+ ToLower (Join (camelcase_Split (Name s)) "-").

Definition story_query (s : Story) : string :=
  Join [ "globals=viewport:full"; "args="; "id=" +:+ story_id s; "viewMode=story" ] "&".

Definition navigation_URL (u : URL) (s : Story) : URL :=
  set_RawQuery (set_Path u "iframe.html") (story_query s).
End SpecCapture.

Section SpecFailure.
Context `{lib : Lib} {B : Type} `{br : Browser B}.

(** An action [a] of the task list fails with [e] after the actions
    before it went through. *)
Definition action_fails (ctx : B) (tasks : list Action) (a : Action) (e : error) : Prop :=
  ∃ b done rest st,
    launch ctx = inr b ∧
    tasks = done ++ a :: rest ∧
    Tasks_Do done (b, zero_Vars) = (st, None) ∧
    Do a st = inl e.

(** The actions went through and the screenshot does not decode. *)
Definition decoding_fails (ctx : B) (tasks : list Action) (e : error) : Prop :=
  ∃ b v,
    chromedp_Run ctx tasks zero_Vars = ((b, v), None) ∧
    Blockhash (screenshot v) 16 = inl e.
End SpecFailure.

(** The text of a declaration of the story [w]. *)
Definition declaration (w : string) : string := "export const " +:+ w +:+ ": Story".

Section SpecDiscovery.
Context `{lib : Lib} `{fs : FS}.

(** A story that comes from a declaration in the file at its path. *)
Definition declared (s : Story) : Prop :=
  Name s ≠ EmptyString ∧ all_word (Name s) = true ∧
  ComponentName s = (componentName_of (Path s)).1 ∧
  ∃ content, ReadFileToString (Path s) = (content, None) ∧
             Contains content (declaration (Name s)) = true.

(** The [.gitignore] that discovery reads: the one at the root, or
    else the one at its parent. *)
Definition nearest_gitignore (path : string) : option string :=
  if FileExists (filepath_Join [path; ".gitignore"])
  then Some (filepath_Join [path; ".gitignore"])
  else if FileExists (filepath_Join [path; ".."; ".gitignore"])
  then Some (filepath_Join [path; ".."; ".gitignore"])
  else None.
End SpecDiscovery.

(** A path that contains none of the ignore tokens. *)
Definition clean (ignores : list string) (path : string) : Prop :=
  existsb (Contains path) ignores = false.

(** ** The bookkeeping of the worker pool *)

(** A goroutine that is past [story.Check] has sent to a channel. *)
Definition ran (w : pc) : bool :=
  match w with Checked | Released | Done => true | _ => false end.

(** The steps a goroutine still has to take. *)
Definition rank (w : pc) : nat :=
  match w with
  | Spawned => 5 | Acquired => 4 | Allocated => 3
  | Checked => 2 | Released => 1 | Done => 0
  end%nat.

Definition remaining (p : Pool) : nat := sum_list_with rank (workers p).

(** [story.Check] hands every goroutine a result or an error. *)
Definition one_of_two (o : option RegressionTestResult * option error) : Prop :=
  (∃ r, o = (Some r, None)) ∨ (∃ e, o = (None, Some e)).

(** What a goroutine sends to [results] and to [errors], given what
    [story.Check] returned to it. *)
Definition sent_result (o : option RegressionTestResult * option error)
  : list (option RegressionTestResult) :=
  match o with
  | (_, Some _) => []
  | (result, None) => [result]
  end.

Definition sent_error (o : option RegressionTestResult * option error) : list error :=
  match o with
  | (_, Some err) => [err]
  | (_, None) => []
  end.

(** What the goroutines [ws] have sent so far, in the order of the
    stories. *)
Fixpoint delivered {A O} (pick : O → list A) (ws : list pc) (outs : list O) : list A :=
  match ws, outs with
  | w :: ws', o :: outs' => (if ran w then pick o else []) ++ delivered pick ws' outs'
  | _, _ => []
  end.

Section Bookkeeping.
Context `{lib : Lib} {B : Type} `{br : Browser B}.
Variables (c : Config) (stories : list Story).

(** What [story.Check] returns to the goroutine of each story. *)
Definition outcomes : list (option RegressionTestResult * option error) :=
  imap (λ i s, Story_Check s (NewContext i) c) stories.

(** The results of the stories whose check succeeded and the errors of
    the others, in the order of the stories. *)
Definition successes : list RegressionTestResult :=
  omap (λ o, match o with (Some r, None) => Some r | _ => None end) outcomes.

Definition failures : list error := omap (λ o, o.2) outcomes.

(** What holds of the pool at every moment of a run. *)
Record pool_inv (p : Pool) : Prop := mkPoolInv {
  inv_length : length (workers p) = length stories;
  inv_sem : sem p = permits_held p;
  inv_cap : Z.of_nat (sem p) ≤ MaxThreads c;
  inv_results : results p ≡ₚ delivered sent_result (workers p) outcomes;
  inv_errors : errors p ≡ₚ delivered sent_error (workers p) outcomes
}.

(** The error that [Config.Check] makes of the errors read from the
    channel. *)
Definition aggregate (errs : list error) : error :=
  Sprintf "errors occurred during regression test: %v" [fmt_errors errs].
End Bookkeeping.

(** ** A small world to run the program in *)

Module Demo.

Definition lower_ascii (c : ascii) : ascii :=
  let n := nat_of_ascii c in
  if ((65 <=? n) && (n <=? 90))%nat then ascii_of_nat (n + 32) else c.

Definition is_upper (c : ascii) : bool :=
  let n := nat_of_ascii c in ((65 <=? n) && (n <=? 90))%nat.

Fixpoint lower (s : string) : string :=
  match s with
  | EmptyString => EmptyString
  | String c s' => String (lower_ascii c) (lower s')
  end.

(** Camel-case splitting for names such as [PrimaryLarge]: a new word
    starts at a capital that follows a byte that is not a capital. *)
Fixpoint camel (prev_upper : bool) (cur : string) (s : string) : list string :=
  match s with
  | EmptyString => [cur]
  | String c s' =>
      if is_upper c && negb prev_upper && negb (String.eqb cur EmptyString)
      then cur :: camel true (String c EmptyString) s'
      else camel (is_upper c) (cur +:+ String c EmptyString) s'
  end.

Definition parse (raw : string) : error + URL :=
  if Contains raw " " then inl "parse: invalid character in host name"
  else
    let '(rest, _) := CutPrefix raw "http://" in
    inr (mkURL "http" EmptyString None rest EmptyString EmptyString false false EmptyString EmptyString EmptyString).

Definition render (u : URL) : string :=
  Scheme u +:+ "://" +:+ Host u +:+ "/" +:+ URL_Path u +:+ "?" +:+ RawQuery u.

Definition bytes_of (s : string) : list byte := list_byte_of_string s.

Definition lib : Lib := {|
  url_Parse := parse;
  url_String := render;
  camelcase_Split := camel true EmptyString;
  ToLower := lower;
  Blockhash := λ img bits,
    match img with
    | [] => inl "image: unknown format"
    | _ => inr ("bh" +:+ string_of_list_byte img)
    end;
  sha1_Sum := λ s, "sha1(" +:+ s +:+ ")";
  md5_Sum := λ s, "md5(" +:+ s +:+ ")";
  filepath_Join := λ elems, Join elems "/"
|}.

(** Sessions are numbered.  Session 1 never shows the root element,
    session 2 delivers an empty screenshot, the others render. *)
Definition browser : Browser nat := {|
  NewContext := λ i, i;
  launch := λ b, inr b;
  navigate := λ _ b, inr b;
  waitVisible := λ _ b,
    if Nat.eqb b 1 then inl "context deadline exceeded" else inr b;
  waitReady := λ _ b, inr b;
  sleep := λ _ b, inr b;
  captureScreenshot := λ _ b,
    if Nat.eqb b 2 then inr ([], b) else inr (bytes_of "PNG", b);
  evaluate := λ q b,
    if HasPrefix q "document.querySelector" then inr ("<div id=root></div>", b)
    else inr ("body { margin: 0 }", b)
|}.

Definition runtime : Runtime := {|
  range_order := λ keys, keys;
  range_order_perm := λ keys, reflexivity keys
|}.

Definition project : tree :=
  Dir None
    [ (".gitignore", File);
      ("dist", Dir None [("Button.stories.js", File)]);
      ("package.json", File);
      ("src", Dir None
         [ ("10-atoms", Dir None [("Button.stories.tsx", File)]);
           ("misc", Dir None [("Card.stories.tsx", File)]) ]) ].

Definition contents (path : string) : string :=
  if String.eqb path "/proj/.gitignore"
  then "dist" +:+ LF +:+ "# local" +:+ LF +:+ LF +:+ "secret" +:+ LF
  else if String.eqb path "/proj/src/10-atoms/Button.stories.tsx"
  then "export const Primary: Story = {};" +:+ LF
       +:+ "export const LargeSize: Story = {};" +:+ LF
  else if String.eqb path "/proj/src/misc/Card.stories.tsx"
  then "export const Plain: Story = {};"
  else "{}".

(** A project at [/proj] with a manifest and a [.gitignore]. *)
Definition files : FS := {|
  os_Stat := λ path,
    if String.eqb path "/proj/.gitignore" || String.eqb path "/proj/package.json"
    then None else Some "stat: no such file or directory";
  os_IsNotExist := λ _, true;
  os_Open := λ _, None;
  io_ReadAll := λ path, inr (contents path);
  os_Lstat_tree := λ _, project
|}.

(** An empty directory. *)
Definition empty_files : FS := {|
  os_Stat := λ _, Some "stat: no such file or directory";
  os_IsNotExist := λ _, true;
  os_Open := λ _, Some "open: no such file or directory";
  io_ReadAll := λ _, inl "read: bad file descriptor";
  os_Lstat_tree := λ _, Dir None []
|}.

Definition config : Config := mkConfig "http://localhost:6006" "#storybook-root" 1.

Definition button : Story :=
  mkStory "/proj/src/10-atoms/Button.stories.tsx" "LargeSize" "atom" "Button".

Definition card : Story :=
  mkStory "/proj/src/misc/Card.stories.tsx" "Plain" "draft" "Card".

(** What session 0 yields for [button]. *)
Definition fingerprint : RegressionTest :=
  mkRegressionTest "LargeSize" "full" "md5(<div id=root></div>)"
                   "sha1(body { margin: 0 })" "bhPNG" 0.

Definition created : RegressionTestResult :=
  mkRegressionTestResult "created" fingerprint fingerprint.

(** A baseline of an earlier run, when the first rule of the style
    sheet was another one. *)
Definition old_baseline : RegressionTest :=
  mkRegressionTest "LargeSize" "full" "md5(<div id=root></div>)"
                   "sha1(body { margin: 8px })" "bhPNG" 0.

(** What session 3 yields for [card]. *)
Definition card_created : RegressionTestResult :=
  let test := mkRegressionTest "Plain" "full" "md5(<div id=root></div>)"
                               "sha1(body { margin: 0 })" "bhPNG" 0 in
  mkRegressionTestResult "created" test test.

Definition base_url : URL :=
  mkURL "http" EmptyString None "localhost:6006" EmptyString EmptyString
        false false EmptyString EmptyString EmptyString.

End Demo.

(** ** A second small world, with a command line *)

Module Shell.

Definition root : string := "/home/u/code/tuv-galaxy/component-library/project".

Definition local_json : string := "{base_url: http://localhost:6006, max_threads: 2}".
Definition home_json : string := "{base_url: http://storybook.example}".
Definition empty_json : string := "{}".

(** A working directory with a [visage.json], a home directory with
    another one, and under the home directory the project that [check]
    looks at: a manifest and one file with two stories. *)
Definition files : FS := {|
  os_Stat := λ path,
    if String.eqb path "/work/visage.json"
       || String.eqb path "/home/u/.config/visage.json"
       || String.eqb path (root +:+ "/package.json")
    then None else Some "stat: no such file or directory";
  os_IsNotExist := λ _, true;
  os_Open := λ _, None;
  io_ReadAll := λ path,
    if String.eqb path "/work/visage.json" then inr local_json
    else if String.eqb path "/home/u/.config/visage.json" then inr home_json
    else if String.eqb path (root +:+ "/Badge.stories.tsx")
    then inr ("export const Small: Story = {};" +:+ LF
              +:+ "export const WithIcon: Story = {};" +:+ LF)
    else inr empty_json;
  os_Lstat_tree := λ _, Dir None [("Badge.stories.tsx", File); ("package.json", File)]
|}.

(** The same with no [visage.json] in the working directory. *)
Definition files_home_only : FS := {|
  os_Stat := λ path,
    if String.eqb path "/home/u/.config/visage.json"
       || String.eqb path (root +:+ "/package.json")
    then None else Some "stat: no such file or directory";
  os_IsNotExist := λ _, true;
  os_Open := λ _, None;
  io_ReadAll := io_ReadAll (FS := files);
  os_Lstat_tree := os_Lstat_tree (FS := files)
|}.

(** A root that cannot be listed. *)
Definition files_locked : FS := {|
  os_Stat := λ _, Some "stat: no such file or directory";
  os_IsNotExist := λ _, true;
  os_Open := λ _, None;
  io_ReadAll := io_ReadAll (FS := files);
  os_Lstat_tree := λ _, Dir (Some "open: permission denied") []
|}.

Definition os : OS := {|
  os_Getwd := inr "/work";
  os_UserHomeDir := inr "/home/u";
  json_Unmarshal := λ data,
    if String.eqb data local_json
    then inr (mkConfig "http://localhost:6006" EmptyString 2)
    else if String.eqb data home_json
    then inr (mkConfig "http://storybook.example" EmptyString 0)
    else if String.eqb data empty_json
    then inr (mkConfig EmptyString EmptyString 0)
    else inl "invalid character"
|}.

(** A browser in which every session renders. *)
Definition browser : Browser nat := {|
  NewContext := λ i, i;
  launch := λ b, inr b;
  navigate := λ _ b, inr b;
  waitVisible := λ _ b, inr b;
  waitReady := λ _ b, inr b;
  sleep := λ _ b, inr b;
  captureScreenshot := λ _ b, inr (Demo.bytes_of "PNG", b);
  evaluate := λ q b, inr ("<i/>", b)
|}.

Definition local_config : Config := mkConfig "http://localhost:6006" EmptyString 2.
Definition home_config : Config := mkConfig "http://storybook.example" EmptyString 0.

Definition env : Environment := mkEnvironment "/work" "/home/u" "/work/visage.json".

Definition small : Story := mkStory (root +:+ "/Badge.stories.tsx") "Small" "draft" "Badge".
Definition withIcon : Story := mkStory (root +:+ "/Badge.stories.tsx") "WithIcon" "draft" "Badge".

End Shell.

(** * Properties *)

(** ** Strings *)

Example Split_path :
  Split "src/10-atoms/Button.stories.tsx" "/" = ["src"; "10-atoms"; "Button.stories.tsx"].
Proof. reflexivity. Qed.

Example Split_empty_string : Split EmptyString "/" = [EmptyString].
Proof. reflexivity. Qed.

Example Split_trailing_separator : Split "a//b/" "/" = ["a"; EmptyString; "b"; EmptyString].
Proof. reflexivity. Qed.

Example Sprintf_copies_arguments :
  Sprintf "id=%s-%s--%s&x" ["a%s"; "b"; "c"] = "id=a%s-b--c&x".
Proof. reflexivity. Qed.

Lemma append_cons ch (a b : string) : String ch a +:+ b = String ch (a +:+ b).
Proof. reflexivity. Qed.

Lemma append_nil_l (a : string) : EmptyString +:+ a = a.
Proof. reflexivity. Qed.

Lemma append_assoc (a b c : string) : (a +:+ b) +:+ c = a +:+ (b +:+ c).
Proof.
  induction a as [|ch a IH]; [done|].
  by rewrite !append_cons, IH.
Qed.

Lemma append_nil_r (a : string) : a +:+ EmptyString = a.
Proof.
  induction a as [|ch a IH]; [done|].
  by rewrite append_cons, IH.
Qed.

Lemma genSplit_length sep skip cur s : (0 < length (genSplit sep skip cur s))%nat.
Proof.
  revert skip cur. induction s as [|ch s IH]; intros skip cur; cbn [genSplit].
  - simpl. lia.
  - destruct skip as [|k]; [|apply IH].
    destruct (HasPrefix (String ch s) sep); [simpl; lia | apply IH].
Qed.

(** A split on a separator that is not empty has at least one piece. *)
Lemma Split_length s sep : sep ≠ EmptyString → (0 < length (Split s sep))%nat.
Proof.
  intros Hsep. destruct sep as [|ch sep]; [done|].
  unfold Split. apply genSplit_length.
Qed.

Lemma Ascii_eqb_true c d : Ascii.eqb c d = true ↔ c = d.
Proof. apply Ascii.eqb_eq. Qed.

Lemma HasPrefix_spec s prefix :
  HasPrefix s prefix = true ↔ ∃ post, s = prefix +:+ post.
Proof.
  revert s. induction prefix as [|ch prefix IH]; intros [|d s]; cbn [HasPrefix].
  - split; [by exists EmptyString|done].
  - split; [by exists (String d s)|done].
  - split; [done|]. intros [post H]. discriminate H.
  - rewrite andb_true_iff, Ascii_eqb_true, IH. split.
    + intros [-> [post ->]]. by exists post.
    + intros [post H]. rewrite append_cons in H. injection H as -> ->. eauto.
Qed.

Lemma Contains_spec s substr :
  Contains s substr = true ↔ ∃ pre post, s = pre +:+ substr +:+ post.
Proof.
  induction s as [|d s IH].
  - cbn [Contains]. rewrite orb_false_r, HasPrefix_spec. split.
    + intros [post H]. by exists EmptyString, post.
    + intros ([|ch pre] & post & H); [eauto|]. rewrite append_cons in H. discriminate H.
  - cbn [Contains]. rewrite orb_true_iff, HasPrefix_spec, IH. split.
    + intros [[post H] | (pre & post & ->)].
      * by exists EmptyString, post.
      * by exists (String d pre), post.
    + intros ([|ch pre] & post & H).
      * left. eauto.
      * right. rewrite append_cons in H. injection H as _ ->. eauto.
Qed.

(** A string that contains [a] contains what [a] contains. *)
Lemma Contains_trans s a b :
  Contains s a = true → Contains a b = true → Contains s b = true.
Proof.
  rewrite !Contains_spec. intros (pre & post & ->) (pre' & post' & ->).
  exists (pre +:+ pre'), (post' +:+ post). by rewrite !append_assoc.
Qed.

(** ** [Story.Check] *)

Section CaptureFacts.
Context `{lib : Lib} {B : Type} `{br : Browser B}.

Lemma Check_result_Some s v r e :
  Check_result s v = (Some r, e) →
  e = None ∧
  ∃ visualHash,
    Blockhash (screenshot v) 16 = inr visualHash ∧
    r = let test := mkRegressionTest (Name s) "full" (md5_Sum (html v))
                      (sha1_Sum (style v)) visualHash 0 in
        mkRegressionTestResult REGRESSION_TEST_STATUS_CREATED test test.
Proof.
  unfold Check_result. destruct (Blockhash (screenshot v) 16) as [err|vh]; [done|].
  intros [= <- <-]. eauto.
Qed.

(** A result of [Story.Check] comes from a parsed base URL, a run of
    all the actions and a screenshot that decodes. *)
Lemma Story_Check_Some s ctx c r e :
  Story_Check s ctx c = (Some r, e) →
  e = None ∧
  ∃ u b v,
    url_Parse (BaseURL c) = inr u ∧
    chromedp_Run ctx (Check_tasks c (Check_target s u)) zero_Vars = ((b, v), None) ∧
    Check_result s v = (Some r, None).
Proof.
  unfold Story_Check. destruct (url_Parse (BaseURL c)) as [err|u]; [done|].
  destruct (chromedp_Run _ _ _) as [[b v] [err|]] eqn:Hrun; [done|].
  intros Hres. destruct (Check_result_Some _ _ _ _ Hres) as [-> _].
  split; [done|]. by exists u, b, v.
Qed.

(** [Story.Check] never returns an error together with a result, and
    never neither. *)
Lemma Story_Check_exclusive s ctx c :
  (∃ r, Story_Check s ctx c = (Some r, None)) ∨
  (∃ e, Story_Check s ctx c = (None, Some e)).
Proof.
  unfold Story_Check. destruct (url_Parse (BaseURL c)) as [err|u]; [eauto|].
  destruct (chromedp_Run _ _ _) as [[b v] [err|]]; [eauto|].
  unfold Check_result. destruct (Blockhash _ _); eauto.
Qed.

Lemma Tasks_Do_app done rest st st' :
  Tasks_Do done st = (st', None) →
  Tasks_Do (done ++ rest) st = Tasks_Do rest st'.
Proof.
  revert st. induction done as [|a done IH]; intros st; simpl.
  - by intros [= ->].
  - destruct (Do a st) as [e|st1]; [done|]. apply IH.
Qed.

Lemma action_fails_Run ctx tasks a e :
  action_fails ctx tasks a e →
  ∃ st, chromedp_Run ctx tasks zero_Vars = (st, Some e).
Proof.
  intros (b & done & rest & st & Hl & -> & Hdone & Hdo).
  unfold chromedp_Run. rewrite Hl, (Tasks_Do_app _ _ _ _ Hdone). simpl.
  rewrite Hdo. eauto.
Qed.

(** The seven steps of the capture sequence, in their order. *)
Lemma Check_tasks_steps c u :
  ∃ target id htmlQuery cssQuery,
    Check_tasks c u =
      [ Navigate target; WaitVisible id; WaitReady id; Sleep 1; Screenshot id;
        EvaluateAsDevTools htmlQuery dst_html; EvaluateAsDevTools cssQuery dst_style ].
Proof. unfold Check_tasks. eauto 6. Qed.

Lemma Sprintf_story_query a b c :
  Sprintf "globals=viewport:full&args=&id=%s-%s--%s&viewMode=story" [a; b; c]
  = "globals=viewport:full&args=&id=" +:+ a +:+ "-" +:+ b +:+ "--" +:+ c +:+ "&viewMode=story".
Proof. reflexivity. Qed.

Lemma Check_target_navigation_URL s u : Check_target s u = navigation_URL u s.
Proof.
  unfold Check_target, navigation_URL, story_query, story_id.
  rewrite Sprintf_story_query. f_equal.
  cbn [Join]. by rewrite !append_assoc.
Qed.

Lemma GetOrganismTypeString_plural s :
  OrganismType s ∈ categories →
  Story_GetOrganismTypeString s = OrganismType s +:+ "s".
Proof.
  unfold categories. rewrite !elem_of_cons, elem_of_nil.
  unfold Story_GetOrganismTypeString.
  intros [-> | [-> | [-> | [-> | [-> | [-> | [-> | []]]]]]]]; reflexivity.
Qed.

Lemma Story_Check_shape s ctx c r :
  Story_Check s ctx c = (Some r, None) →
  ∃ test, r = mkRegressionTestResult REGRESSION_TEST_STATUS_CREATED test test
          ∧ TimeStamp test = 0.
Proof.
  intros H. apply Story_Check_Some in H as (_ & u & b & v & _ & _ & H).
  apply Check_result_Some in H as (_ & vh & _ & ->). by eexists.
Qed.

(** C2: every result that [Story.Check] returns without an error has
    the status "created", and its expected fingerprint is its current
    fingerprint, field for field: the function has no baseline among its
    inputs and builds both from the same value. *)
Theorem Story_Check_created_against_itself s ctx c r :
  Story_Check s ctx c = (Some r, None) →
  Status r = REGRESSION_TEST_STATUS_CREATED ∧
  ExpectedTest r = CurrentTest r ∧
  Component (ExpectedTest r) = Component (CurrentTest r) ∧
  Viewport (ExpectedTest r) = Viewport (CurrentTest r) ∧
  DomHash (ExpectedTest r) = DomHash (CurrentTest r) ∧
  StyleHash (ExpectedTest r) = StyleHash (CurrentTest r) ∧
  VisualHash (ExpectedTest r) = VisualHash (CurrentTest r) ∧
  TimeStamp (ExpectedTest r) = TimeStamp (CurrentTest r).
Proof.
  intros H. apply Story_Check_shape in H as (test & -> & _). by repeat split.
Qed.

(** C9: the fingerprints that [Story.Check] produces have the time
    stamp zero; the field is never assigned. *)
Theorem Story_Check_TimeStamp_zero s ctx c r :
  Story_Check s ctx c = (Some r, None) →
  TimeStamp (CurrentTest r) = 0 ∧ TimeStamp (ExpectedTest r) = 0.
Proof.
  intros H. apply Story_Check_shape in H as (test & -> & Hts). by split.
Qed.

(** C1, as the code has it: whatever baseline existed before the run,
    a story whose capture succeeds gets the status "created", which is
    what the comparator says when there was no baseline, and only then;
    the statuses "passed" and "failed" are never produced. *)
Theorem Story_Check_ignores_baseline s ctx c r (baseline : option RegressionTest) :
  Story_Check s ctx c = (Some r, None) →
  Status r = "created" ∧
  follows_comparator None r ∧
  (follows_comparator baseline r ↔ baseline = None) ∧
  Status r ≠ "passed" ∧ Status r ≠ "failed".
Proof.
  intros H. apply Story_Check_shape in H as (test & -> & _).
  unfold follows_comparator. simpl. repeat split; try done.
  - destruct baseline as [bl|]; [|done]. simpl.
    destruct (hashes_equal bl test); discriminate.
  - by intros ->.
Qed.

(** C5: when an action of the capture sequence fails after the ones
    before it went through, or when all went through and the screenshot
    does not decode, [Story.Check] returns that error and a nil result;
    and whenever it returns an error the result is nil. *)
Theorem Story_Check_failure_is_total s ctx c u e :
  url_Parse (BaseURL c) = inr u →
  (∃ a, action_fails ctx (Check_tasks c (Check_target s u)) a e)
  ∨ decoding_fails ctx (Check_tasks c (Check_target s u)) e →
  Story_Check s ctx c = (None, Some e) ∧
  ∀ r e', Story_Check s ctx c = (r, Some e') → r = None.
Proof.
  intros Hu Hfail. split.
  - unfold Story_Check. rewrite Hu. destruct Hfail as [[a Ha] | (b & v & Hrun & Hbh)].
    + destruct (action_fails_Run _ _ _ _ Ha) as [[b v] ->]. done.
    + rewrite Hrun. unfold Check_result. by rewrite Hbh.
  - intros r e' H. destruct r as [r|]; [|done].
    by apply Story_Check_Some in H as [? _].
Qed.

(** C8: the first action of [Story.Check] navigates to the base URL
    with the path [iframe.html] and the query that names the story: the
    plural of the category, the lower-cased component name and the
    lower-cased, hyphen-joined camel-case pieces of the story name, with
    the viewport "full" and the view mode "story".  The target depends on
    the configuration and the story only. *)
Theorem Story_Check_navigates_to_story s ctx c u :
  url_Parse (BaseURL c) = inr u →
  ∃ rest,
    Check_tasks c (Check_target s u) = Navigate (url_String (navigation_URL u s)) :: rest ∧
    URL_Path (navigation_URL u s) = "iframe.html" ∧
    RawQuery (navigation_URL u s)
      = "globals=viewport:full&args=&id="
        +:+ Story_GetOrganismTypeString s +:+ "-" +:+ ToLower (ComponentName s) +:+ "--"
        +:+ ToLower (Join (camelcase_Split (Name s)) "-") +:+ "&viewMode=story" ∧
    (OrganismType s ∈ categories →
     Story_GetOrganismTypeString s = OrganismType s +:+ "s") ∧
    Story_Check s ctx c =
      match chromedp_Run ctx (Navigate (url_String (navigation_URL u s)) :: rest) zero_Vars with
      | (_, Some err) => (None, Some err)
      | ((_, v), None) => Check_result s v
      end.
Proof.
  intros Hu. eexists. split; [|split; [|split; [|split]]].
  - unfold Check_tasks. rewrite Check_target_navigation_URL. reflexivity.
  - reflexivity.
  - rewrite <- Check_target_navigation_URL. unfold Check_target.
    rewrite Sprintf_story_query. reflexivity.
  - apply GetOrganismTypeString_plural.
  - unfold Story_Check. rewrite Hu. unfold Check_tasks.
    rewrite Check_target_navigation_URL. reflexivity.
Qed.
End CaptureFacts.

Lemma Story_Check_created_against_itself_witness :
  Story_Check (lib := Demo.lib) (br := Demo.browser) Demo.button 0%nat Demo.config
    = (Some Demo.created, None) ∧
  Status Demo.created = "created" ∧
  ExpectedTest Demo.created = CurrentTest Demo.created.
Proof.
  split; [reflexivity|].
  destruct (Story_Check_created_against_itself (lib := Demo.lib) (br := Demo.browser)
              Demo.button 0%nat Demo.config Demo.created eq_refl) as (H1 & H2 & _).
  exact (conj H1 H2).
Defined.

Lemma Story_Check_TimeStamp_zero_witness :
  Story_Check (lib := Demo.lib) (br := Demo.browser) Demo.card 3%nat Demo.config
    = (Some Demo.card_created, None) ∧
  TimeStamp (CurrentTest Demo.card_created) = 0 ∧
  TimeStamp (ExpectedTest Demo.card_created) = 0.
Proof.
  split; [reflexivity|].
  exact (Story_Check_TimeStamp_zero (lib := Demo.lib) (br := Demo.browser)
           Demo.card 3%nat Demo.config Demo.card_created eq_refl).
Defined.

(** A baseline whose style hash differs exists, the comparator says
    "failed", and [Story.Check] says "created". *)
Lemma Story_Check_not_comparator :
  Story_Check (lib := Demo.lib) (br := Demo.browser) Demo.button 0%nat Demo.config
    = (Some Demo.created, None) ∧
  comparator_status (Some Demo.old_baseline) (CurrentTest Demo.created) = "failed" ∧
  Status Demo.created = "created" ∧
  ¬ follows_comparator (Some Demo.old_baseline) Demo.created.
Proof. repeat split. intros H. discriminate H. Qed.

Lemma Story_Check_ignores_baseline_witness :
  Story_Check (lib := Demo.lib) (br := Demo.browser) Demo.button 0%nat Demo.config
    = (Some Demo.created, None) ∧
  Status Demo.created = "created" ∧
  ¬ follows_comparator (Some Demo.fingerprint) Demo.created.
Proof.
  split; [reflexivity|].
  destruct (Story_Check_ignores_baseline (lib := Demo.lib) (br := Demo.browser)
              Demo.button 0%nat Demo.config Demo.created (Some Demo.fingerprint) eq_refl)
    as (H1 & _ & H3 & _).
  split; [exact H1|]. intros H. apply H3 in H. discriminate H.
Defined.

Lemma Story_Check_failure_is_total_witness :
  url_Parse (Lib := Demo.lib) (BaseURL Demo.config) = inr Demo.base_url ∧
  action_fails (br := Demo.browser) 1%nat
    (Check_tasks (lib := Demo.lib) Demo.config
       (Check_target (lib := Demo.lib) Demo.button Demo.base_url))
    (WaitVisible "storybook-root") "context deadline exceeded" ∧
  Story_Check (lib := Demo.lib) (br := Demo.browser) Demo.button 1%nat Demo.config
    = (None, Some "context deadline exceeded").
Proof.
  assert (Hf : action_fails (br := Demo.browser) 1%nat
            (Check_tasks (lib := Demo.lib) Demo.config
               (Check_target (lib := Demo.lib) Demo.button Demo.base_url))
            (WaitVisible "storybook-root") "context deadline exceeded").
  { exists 1%nat, [Navigate (url_String (Lib := Demo.lib)
                               (Check_target (lib := Demo.lib) Demo.button Demo.base_url))].
    eexists. exists (1%nat, zero_Vars). repeat split. }
  split; [reflexivity|]. split; [exact Hf|].
  apply (Story_Check_failure_is_total (lib := Demo.lib) (br := Demo.browser)
           Demo.button 1%nat Demo.config Demo.base_url); [reflexivity|].
  left. exists (WaitVisible "storybook-root"). exact Hf.
Defined.

Lemma Story_Check_navigates_to_story_witness :
  url_Parse (Lib := Demo.lib) (BaseURL Demo.config) = inr Demo.base_url ∧
  ∃ rest,
    Check_tasks (lib := Demo.lib) Demo.config
      (Check_target (lib := Demo.lib) Demo.button Demo.base_url)
    = Navigate "http://localhost:6006/iframe.html?globals=viewport:full&args=&id=atoms-button--large-size&viewMode=story"
      :: rest.
Proof.
  split; [reflexivity|].
  destruct (Story_Check_navigates_to_story (lib := Demo.lib) (br := Demo.browser)
              Demo.button 0%nat Demo.config Demo.base_url eq_refl) as (rest & H & _).
  exists rest. exact H.
Defined.


(** ** Discovery *)

Section DiscoveryFacts.
Context `{lib : Lib} `{fs : FS} `{rt : Runtime}.

Lemma keep_line_spec line :
  keep_line line = negb (String.eqb line EmptyString) && negb (HasPrefix line "#").
Proof.
  destruct line as [|ch line]; [reflexivity|]. cbn.
  destruct line; by rewrite andb_true_r, Ascii.eqb_sym.
Qed.

Lemma foldl_append_lines (lines acc : list string) :
  foldl (λ acc line, if keep_line line then acc ++ [line] else acc) acc lines
  = acc ++ List.filter keep_line lines.
Proof.
  revert acc. induction lines as [|line lines IH]; intros acc; simpl.
  - by rewrite app_nil_r.
  - rewrite IH. destruct (keep_line line); [|done].
    by rewrite <- app_assoc.
Qed.

Lemma gitignore_tokens_filter content :
  gitignore_tokens content = List.filter keep_line (SplitSeq content LF).
Proof.
  unfold gitignore_tokens, SplitSeq. apply List.filter_ext.
  intros line. by rewrite keep_line_spec.
Qed.

Lemma foldl_insert_lookup (ls : list string) (m : gmap string bool) x :
  is_Some (foldl (λ m line, <[line := true]> m) m ls !! x)
  ↔ x ∈ ls ∨ is_Some (m !! x).
Proof.
  revert m. induction ls as [|l ls IH]; intros m; simpl.
  - rewrite elem_of_nil. tauto.
  - rewrite IH, elem_of_cons. destruct (decide (l = x)) as [->|Hne].
    + rewrite lookup_insert_eq. split; intros _; [by left; left | right; eauto].
    + rewrite lookup_insert_ne by done. intuition congruence.
Qed.

(** The merge keeps every token once and adds nothing. *)
Lemma merge_ignoreFiles_spec ignoreFiles content :
  NoDup (merge_ignoreFiles ignoreFiles content) ∧
  ∀ x, x ∈ merge_ignoreFiles ignoreFiles content
       ↔ x ∈ ignoreFiles ∨ x ∈ gitignore_tokens content.
Proof.
  unfold merge_ignoreFiles. rewrite foldl_append_lines, <- gitignore_tokens_filter.
  set (m := foldl _ _ _). split.
  - rewrite range_order_perm. apply NoDup_fst_map_to_list.
  - intros x. rewrite range_order_perm.
    rewrite list_elem_of_fmap. split.
    + intros ([k v] & -> & Hkv). apply elem_of_map_to_list in Hkv.
      assert (Hs : is_Some (m !! k)) by eauto.
      apply foldl_insert_lookup in Hs as [Hs | [? Hs]].
      * by apply elem_of_app in Hs.
      * by rewrite lookup_empty in Hs.
    + intros Hx. assert (Hs : is_Some (m !! x)).
      { apply foldl_insert_lookup. left. by apply elem_of_app. }
      destruct Hs as [v Hv]. exists (x, v). split; [done|].
      by apply elem_of_map_to_list.
Qed.

(** C7: the ignore tokens.  With no [.gitignore] at the root or at its
    parent [GetIgnoreFiles] returns the built-in list.  With one (the
    root's first) that can be read, it returns a list without duplicates
    that holds the built-in tokens and the lines of the file that are not
    empty and do not start with [#], and nothing else; when the file
    cannot be read it returns the error.  [GetAllStories] walks the tree
    with these tokens. *)
Theorem GetIgnoreFiles_merges_gitignore path :
  match nearest_gitignore path with
  | None => GetIgnoreFiles path = (builtin_ignoreFiles, None)
  | Some file =>
      match ReadFileToString file with
      | (content, None) =>
          ∃ l, GetIgnoreFiles path = (l, None) ∧ NoDup l ∧
               ∀ x, x ∈ l ↔ x ∈ builtin_ignoreFiles ∨ x ∈ gitignore_tokens content
      | (_, Some err) => GetIgnoreFiles path = ([], Some err)
      end
  end
  ∧ ∀ ignores, GetIgnoreFiles path = (ignores, None) →
      GetAllStories path =
        match WalkDir path ignores with
        | (_, Some err) => ([], Some err)
        | (paths, None) => GetAllStories_loop paths []
        end.
Proof.
  split.
  - unfold nearest_gitignore, GetIgnoreFiles.
    destruct (FileExists (filepath_Join [path; ".gitignore"])).
    + destruct (ReadFileToString _) as [content [err|]]; [done|].
      eexists. split; [done|]. apply merge_ignoreFiles_spec.
    + destruct (FileExists (filepath_Join [path; ".."; ".gitignore"])); [|done].
      destruct (ReadFileToString _) as [content [err|]]; [done|].
      eexists. split; [done|]. apply merge_ignoreFiles_spec.
  - intros ignores H. unfold GetAllStories. by rewrite H.
Qed.

Lemma organismType_of_category_of p : organismType_of p = category_of p.
Proof.
  unfold organismType_of, category_of, category_markers. simpl.
  repeat (match goal with |- context [Contains p ?m] => destruct (Contains p m) end);
    reflexivity.
Qed.

Lemma category_of_first_marker p before m cat after :
  category_markers = before ++ (m, cat) :: after →
  Forall (λ mc, Contains p mc.1 = false) before →
  Contains p m = true →
  category_of p = cat.
Proof.
  unfold category_of. intros -> Hbefore Hm.
  induction Hbefore as [|[m' c'] before Hx _ IH]; simpl in *.
  - by rewrite Hm.
  - by rewrite Hx.
Qed.

Lemma category_of_no_marker p :
  Forall (λ mc, Contains p mc.1 = false) category_markers →
  category_of p = "draft".
Proof.
  unfold category_of. intros H. induction H as [|mc l Hx _ IH]; simpl; [done|].
  by rewrite Hx.
Qed.

Lemma category_of_categories p : category_of p ∈ categories.
Proof.
  rewrite <- organismType_of_category_of. unfold organismType_of, categories.
  repeat (match goal with |- context [Contains p ?m] => destruct (Contains p m) end);
    set_solver.
Qed.


Lemma add_stories_filed p componentName matches stories :
  Forall filed stories → Forall filed (add_stories p componentName matches stories).
Proof.
  unfold add_stories. revert stories.
  induction matches as [|m matches IH]; intros stories Hs; simpl; [done|].
  apply IH. apply Forall_app. split; [done|].
  apply Forall_singleton. unfold filed. simpl. apply organismType_of_category_of.
Qed.

Lemma GetAllStories_loop_filed paths acc stories :
  Forall filed acc →
  GetAllStories_loop paths acc = (stories, None) →
  Forall filed stories.
Proof.
  revert acc. induction paths as [|p paths IH]; intros acc Hacc; simpl.
  - by intros [= <-].
  - destruct (ReadFileToString p) as [content [err|]]; [done|].
    destruct (componentName_of p) as [name [err|]]; [done|].
    apply IH. destruct (0 <? _)%nat; [|done]. by apply add_stories_filed.
Qed.

Lemma GetAllStories_filed path stories :
  GetAllStories path = (stories, None) → Forall filed stories.
Proof.
  unfold GetAllStories.
  destruct (GetIgnoreFiles path) as [ignores [err|]]; [done|].
  destruct (WalkDir path ignores) as [paths [err|]]; [done|].
  by apply GetAllStories_loop_filed.
Qed.

(** C6: the category of a story is the category of the first marker,
    in the order of the table, that its path contains, and "draft" when
    it contains none; the classification is a total function into the
    seven categories, so it adds no failure to discovery, and every
    story that [GetAllStories] returns carries it. *)
Theorem category_by_first_marker p :
  organismType_of p = category_of p ∧
  category_of p ∈ categories ∧
  (∀ before m cat after,
     category_markers = before ++ (m, cat) :: after →
     Forall (λ mc, Contains p mc.1 = false) before →
     Contains p m = true →
     organismType_of p = cat) ∧
  (Forall (λ mc, Contains p mc.1 = false) category_markers →
   organismType_of p = "draft") ∧
  (Contains p "99-drafts" = false → Contains p "00-foundations" = false →
   Contains p "10-atoms" = true → organismType_of p = "atom") ∧
  (∀ path stories s,
     GetAllStories path = (stories, None) → s ∈ stories →
     OrganismType s = category_of (Path s)).
Proof.
  split; [apply organismType_of_category_of|].
  split; [apply category_of_categories|].
  rewrite organismType_of_category_of. split; [|split; [|split]].
  - intros. by eapply category_of_first_marker.
  - apply category_of_no_marker.
  - intros H1 H2 H3.
    apply (category_of_first_marker p [("99-drafts", "draft"); ("00-foundations", "foundation")]
             "10-atoms" "atom" _ eq_refl); [|done].
    by repeat constructor.
  - intros path stories s H Hs. apply GetAllStories_filed in H.
    by apply (proj1 (Forall_forall _ _) H).
Qed.

Lemma componentName_of_ok p : ∃ name, componentName_of p = (name, None).
Proof.
  unfold componentName_of.
  pose proof (Split_length p "/" ltac:(done)) as H1.
  destruct (Z.leb_spec (Z.of_nat (length (Split p "/"))) 0) as [Hle|_]; [lia|].
  set (lastPart := nth _ _ _).
  pose proof (Split_length lastPart "." ltac:(done)) as H2.
  destruct (Z.leb_spec (Z.of_nat (length (Split lastPart "."))) 0) as [Hle|_]; [lia|].
  eauto.
Qed.

Lemma GetAllStories_loop_error paths acc l e :
  GetAllStories_loop paths acc = (l, Some e) →
  ∃ p, p ∈ paths ∧ (ReadFileToString p).2 = Some e.
Proof.
  revert acc. induction paths as [|p paths IH]; intros acc; simpl; [done|].
  destruct (ReadFileToString p) as [content [err|]] eqn:Hr.
  - intros [= _ ->]. exists p. rewrite Hr. split; [left|done].
  - destruct (componentName_of_ok p) as [name ->].
    intros H. apply IH in H as (q & Hq & He). exists q. split; [by right|done].
Qed.

(** C10: the two length tests of [GetAllStories] never fire.  A split
    on ["/"] or on ["."] has at least one piece, so the derivation of the
    component name returns no error for any path, and an error of
    [GetAllStories] is an error of [GetIgnoreFiles], of [WalkDir] or of
    reading one of the files found. *)
Theorem componentName_never_fails p :
  (0 < length (Split p "/"))%nat ∧
  (∀ lastPart, (0 < length (Split lastPart "."))%nat) ∧
  (∃ name, componentName_of p = (name, None)) ∧
  (∀ e, (componentName_of p).2 ≠ Some (Sprintf "invalid path: %s" [e])) ∧
  (∀ e, (componentName_of p).2 ≠ Some (Sprintf "invalid file name: %s" [e])) ∧
  (∀ path l e,
     GetAllStories path = (l, Some e) →
     (GetIgnoreFiles path).2 = Some e
     ∨ (∃ ignores, GetIgnoreFiles path = (ignores, None) ∧ (WalkDir path ignores).2 = Some e)
     ∨ (∃ file, (ReadFileToString file).2 = Some e)).
Proof.
  destruct (componentName_of_ok p) as [name Hname].
  split; [by apply Split_length|]. split; [intros; by apply Split_length|].
  split; [eauto|]. rewrite Hname. split; [done|]. split; [done|].
  intros path l e. unfold GetAllStories.
  destruct (GetIgnoreFiles path) as [ignores [err|]].
  - intros [= _ ->]. by left.
  - destruct (WalkDir path ignores) as [paths [err|]] eqn:Hw.
    + intros [= _ ->]. right. left. exists ignores. by rewrite Hw.
    + intros H. apply GetAllStories_loop_error in H as (q & _ & Hq). eauto.
Qed.

Lemma WalkDir_fn_clean ignores filePath info err files :
  Forall (clean ignores) files →
  Forall (clean ignores) (WalkDir_fn ignores filePath info err files).1.
Proof.
  intros H. unfold WalkDir_fn. destruct err as [e|]; [done|].
  destruct (default false info).
  - by destruct (existsb (Contains filePath) ignores).
  - destruct (existsb (Contains filePath) ignores) eqn:E; [done|].
    simpl. apply Forall_app. split; [done|]. by apply Forall_singleton.
Qed.

Lemma walk_clean ignores t : ∀ path files,
  Forall (clean ignores) files →
  Forall (clean ignores) (walk (WalkDir_fn ignores) path t files).1.
Proof.
  induction t as [e| |rd es IH] using tree_nested_ind; intros path files Hfiles.
  - by apply WalkDir_fn_clean.
  - by apply WalkDir_fn_clean.
  - cbn [walk].
    pose proof (WalkDir_fn_clean ignores path (Some true) rd files Hfiles) as H1.
    destruct (WalkDir_fn ignores path (Some true) rd files) as [st1 err1].
    simpl in H1. destruct (bool_decide _); [done|].
    revert st1 H1. induction IH as [|[n t'] r Ht _ IHr]; intros st Hst; [done|].
    destruct t' as [e| |rd' es']; cbn [snd] in Ht.
    + pose proof (WalkDir_fn_clean ignores (filepath_Join [path; n]) None (Some e) st Hst) as H2.
      destruct (WalkDir_fn ignores (filepath_Join [path; n]) None (Some e) st)
        as [st' [[|x]|]]; simpl in H2; (done || by apply IHr).
    + pose proof (Ht (filepath_Join [path; n]) st Hst) as H2.
      destruct (walk (WalkDir_fn ignores) (filepath_Join [path; n]) File st)
        as [st' [x|]]; simpl in H2; (done || by apply IHr).
    + pose proof (Ht (filepath_Join [path; n]) st Hst) as H2.
      destruct (walk (WalkDir_fn ignores) (filepath_Join [path; n]) (Dir rd' es') st)
        as [st' [[|x]|]]; simpl in H2; (done || by apply IHr).
Qed.

(** [WalkDir] returns no path that contains an ignore token. *)
Lemma WalkDir_clean path ignores files :
  WalkDir path ignores = (files, None) → Forall (clean ignores) files.
Proof.
  unfold WalkDir, filepath_Walk.
  pose proof (walk_clean ignores (os_Lstat_tree path) path [] (Forall_nil_2 _)) as H.
  destruct (walk _ _ _ _) as [st [[|e]|]]; simpl in H; by intros [= <-].
Qed.

Lemma builtin_in_ignores path ignores :
  GetIgnoreFiles path = (ignores, None) → builtin_ignoreFiles ⊆ ignores.
Proof.
  unfold GetIgnoreFiles. intros H x Hx.
  destruct (FileExists (filepath_Join [path; ".gitignore"])).
  - destruct (ReadFileToString _) as [content [err|]]; [done|].
    injection H as <-. apply merge_ignoreFiles_spec. by left.
  - destruct (FileExists (filepath_Join [path; ".."; ".gitignore"])).
    + destruct (ReadFileToString _) as [content [err|]]; [done|].
      injection H as <-. apply merge_ignoreFiles_spec. by left.
    + by injection H as <-.
Qed.

Lemma add_stories_Path (P : string → Prop) p componentName matches stories :
  P p → Forall (λ s, P (Path s)) stories →
  Forall (λ s, P (Path s)) (add_stories p componentName matches stories).
Proof.
  intros Hp. unfold add_stories. revert stories.
  induction matches as [|m matches IH]; intros stories Hs; simpl; [done|].
  apply IH. apply Forall_app. split; [done|]. by apply Forall_singleton.
Qed.

Lemma GetAllStories_loop_Path (P : string → Prop) paths acc stories :
  Forall P paths → Forall (λ s, P (Path s)) acc →
  GetAllStories_loop paths acc = (stories, None) →
  Forall (λ s, P (Path s)) stories.
Proof.
  intros Hpaths. revert acc. induction Hpaths as [|p paths Hp _ IH]; intros acc Hacc; simpl.
  - by intros [= <-].
  - destruct (ReadFileToString p) as [content [err|]]; [done|].
    destruct (componentName_of p) as [name [err|]]; [done|].
    apply IH. destruct (0 <? _)%nat; [|done]. by apply add_stories_Path.
Qed.

Lemma clean_subseteq ignores ignores' p :
  ignores' ⊆ ignores → clean ignores p → clean ignores' p.
Proof.
  unfold clean. intros Hsub Hc.
  destruct (existsb (Contains p) ignores') eqn:E; [|done].
  apply existsb_exists in E as (x & Hin & Hx).
  assert (existsb (Contains p) ignores = true); [|congruence].
  apply existsb_exists. exists x. split; [|done].
  apply list_elem_of_In, Hsub, list_elem_of_In, Hin.
Qed.

(** The path of a discovered story contains no built-in ignore token. *)
Lemma GetAllStories_clean path stories :
  GetAllStories path = (stories, None) →
  Forall (λ s, clean builtin_ignoreFiles (Path s)) stories.
Proof.
  unfold GetAllStories.
  destruct (GetIgnoreFiles path) as [ignores [err|]] eqn:Hig; [done|].
  destruct (WalkDir path ignores) as [paths [err|]] eqn:Hw; [done|].
  apply GetAllStories_loop_Path; [|done].
  eapply Forall_impl; [by eapply WalkDir_clean|].
  intros p. apply clean_subseteq. by eapply builtin_in_ignores.
Qed.

(** The built-in token [temp] occurs in the marker [40-templates]: the
    walk skips every directory of that name, and no discovered story is
    a template. *)
Lemma GetAllStories_no_template path stories s :
  GetAllStories path = (stories, None) → s ∈ stories →
  OrganismType s ≠ ORGANISM_TYPE_TEMPLATE.
Proof.
  intros H Hs.
  pose proof (proj1 (Forall_forall _ _) (GetAllStories_clean _ _ H) s Hs) as Hclean.
  pose proof (proj1 (Forall_forall _ _) (GetAllStories_filed _ _ H) s Hs) as Hfiled.
  unfold filed in Hfiled. rewrite Hfiled, <- organismType_of_category_of.
  assert (Htemp : Contains (Path s) "40-templates" = false).
  { destruct (Contains (Path s) "40-templates") eqn:E; [|done].
    assert (Contains (Path s) "temp" = true) as Ht
      by (eapply Contains_trans; [exact E | reflexivity]).
    unfold clean, builtin_ignoreFiles in Hclean. simpl in Hclean.
    rewrite Ht in Hclean. rewrite !orb_true_r in Hclean. discriminate Hclean. }
  unfold organismType_of. rewrite Htemp.
  repeat (match goal with |- context [Contains (Path s) ?m] =>
            destruct (Contains (Path s) m) end); discriminate.
Qed.
End DiscoveryFacts.

(** ** The worker pool *)

Section CountFacts.
Context {A : Type}.
Implicit Types (g : pc → nat) (ws : list pc).

Lemma sum_list_with_insert g ws i w w' :
  ws !! i = Some w →
  (sum_list_with g (<[i := w']> ws) + g w = sum_list_with g ws + g w')%nat.
Proof.
  revert i. induction ws as [|x ws IH]; intros [|i] H; simplify_eq/=; [lia|].
  specialize (IH _ H). lia.
Qed.

Lemma sum_list_with_lookup g ws i w :
  ws !! i = Some w → (g w ≤ sum_list_with g ws)%nat.
Proof.
  revert i. induction ws as [|x ws IH]; intros [|i] H; simplify_eq/=; [lia|].
  specialize (IH _ H). lia.
Qed.

Lemma sum_list_with_zero g ws :
  Forall (λ w, g w = 0%nat) ws → sum_list_with g ws = 0%nat.
Proof. induction 1 as [|x ws Hx _ IH]; simpl; [done | lia]. Qed.

Lemma delivered_insert {O} (pick : O → list A) ws (outs : list O) i w o :
  ws !! i = Some w → outs !! i = Some o →
  ∃ X Y, ∀ w', delivered pick (<[i := w']> ws) outs
               = X ++ (if ran w' then pick o else []) ++ Y.
Proof.
  revert outs i. induction ws as [|x ws IH]; intros [|o' outs] [|i] Hw Ho;
    simplify_eq/=.
  - exists [], (delivered pick ws outs). done.
  - destruct (IH _ _ Hw Ho) as (X & Y & H).
    exists ((if ran x then pick o' else []) ++ X), Y. intros w'.
    by rewrite H, <- app_assoc.
Qed.

Lemma delivered_unchanged {O} (pick : O → list A) ws (outs : list O) i w w' :
  ws !! i = Some w → ran w' = ran w →
  delivered pick (<[i := w']> ws) outs = delivered pick ws outs.
Proof.
  revert outs i. induction ws as [|x ws IH]; intros [|o' outs] [|i] Hw Hr;
    simplify_eq/=; try done.
  - by rewrite Hr.
  - f_equal. by eapply IH.
Qed.

Lemma delivered_all_done {O} (pick : O → list A) ws (outs : list O) :
  Forall (λ w, w = Done) ws → length ws = length outs →
  delivered pick ws outs = concat (pick <$> outs).
Proof.
  intros H. revert outs. induction H as [|x ws -> _ IH]; intros [|o outs] Hl;
    simplify_eq/=; [done|].
  f_equal. by apply IH.
Qed.

Lemma delivered_none_ran {O} (pick : O → list A) ws (outs : list O) :
  Forall (λ w, ran w = false) ws → delivered pick ws outs = [].
Proof.
  intros H. revert outs. induction H as [|x ws Hx _ IH]; intros [|o outs];
    simpl; try done.
  by rewrite Hx, IH.
Qed.
End CountFacts.

Lemma count_insert f ws i w w' :
  ws !! i = Some w →
  (count f (<[i := w']> ws) + (if f w then 1 else 0)
   = count f ws + (if f w' then 1 else 0))%nat.
Proof. apply sum_list_with_insert. Qed.

Lemma count_positive f ws i w :
  ws !! i = Some w → f w = true → (0 < count f ws)%nat.
Proof.
  intros H Hf.
  pose proof (sum_list_with_lookup (λ w, if f w then 1 else 0)%nat ws i w H) as Hle.
  simpl in Hle. rewrite Hf in Hle. unfold count. lia.
Qed.

Lemma count_none f ws : Forall (λ w, f w = false) ws → count f ws = 0%nat.
Proof.
  intros H. apply sum_list_with_zero. eapply Forall_impl; [exact H|].
  intros w Hw. simpl. by rewrite Hw.
Qed.

Section PoolFacts.
Context `{lib : Lib} {B : Type} `{br : Browser B}.
Variables (c : Config) (stories : list Story).

Local Abbreviation outs := (outcomes c stories).
Local Abbreviation step := (step c stories).

Lemma outcomes_length : length outs = length stories.
Proof. unfold outcomes. by rewrite length_imap. Qed.

Lemma outcomes_lookup i s :
  stories !! i = Some s → outs !! i = Some (Story_Check s (NewContext i) c).
Proof. intros H. unfold outcomes. by rewrite list_lookup_imap, H. Qed.

Lemma init_pool_inv : 0 ≤ MaxThreads c → pool_inv c stories (init_pool stories).
Proof.
  intros Hcap.
  assert (Hall : ∀ n, Forall (λ w, w = Spawned) (replicate n Spawned)).
  { intros n. apply Forall_replicate. done. }
  split; simpl.
  - by rewrite length_replicate.
  - unfold permits_held. simpl. symmetry. apply count_none.
    eapply Forall_impl; [apply Hall|]. by intros w ->.
  - done.
  - rewrite delivered_none_ran; [done|].
    eapply Forall_impl; [apply Hall|]. by intros w ->.
  - rewrite delivered_none_ran; [done|].
    eapply Forall_impl; [apply Hall|]. by intros w ->.
Qed.

(** A goroutine moves between two places on the same side of
    [story.Check]: nothing is sent. *)
Lemma pool_inv_move p i w w' n :
  pool_inv c stories p →
  workers p !! i = Some w →
  ran w' = ran w →
  (n + (if holds_permit w then 1 else 0) = sem p + (if holds_permit w' then 1 else 0))%nat →
  Z.of_nat n ≤ MaxThreads c →
  pool_inv c stories (mkPool (<[i := w']> (workers p)) n (results p) (errors p)).
Proof.
  intros [Hl Hs Hc Hr He] Hw Hran Hn Hcap. split; simpl.
  - by rewrite length_insert.
  - unfold permits_held in *. simpl.
    pose proof (count_insert holds_permit _ _ _ w' Hw). lia.
  - done.
  - by rewrite (delivered_unchanged _ _ _ _ _ _ Hw Hran).
  - by rewrite (delivered_unchanged _ _ _ _ _ _ Hw Hran).
Qed.

Lemma pool_inv_deliver p i s :
  pool_inv c stories p →
  workers p !! i = Some Allocated →
  stories !! i = Some s →
  pool_inv c stories (deliver c i s p).
Proof.
  intros [Hl Hs Hc Hr He] Hw Hst.
  pose proof (outcomes_lookup _ _ Hst) as Ho.
  destruct (delivered_insert sent_result _ _ _ _ _ Hw Ho) as (X & Y & HR).
  destruct (delivered_insert sent_error _ _ _ _ _ Hw Ho) as (X' & Y' & HE).
  pose proof (HR Allocated) as HR0. pose proof (HE Allocated) as HE0.
  rewrite list_insert_id in HR0, HE0 by done. simpl in HR0, HE0.
  assert (Hcount : permits_held (mkPool (<[i := Checked]> (workers p)) 0 [] [])
                   = permits_held p).
  { unfold permits_held. simpl.
    pose proof (count_insert holds_permit _ _ _ Checked Hw). simpl in *. lia. }
  unfold permits_held in Hcount. simpl in Hcount.
  unfold deliver. destruct (Story_Check s (NewContext i) c) as [r [err|]];
    split; simpl; rewrite ?length_insert; try done;
    unfold permits_held; simpl; rewrite ?Hcount; try done.
  - rewrite HR. simpl. by rewrite Hr, HR0.
  - rewrite HE. simpl. rewrite He, HE0.
    symmetry. etrans; [symmetry; apply Permutation_middle|].
    apply Permutation_cons_append.
  - rewrite HR. simpl. rewrite Hr, HR0.
    symmetry. etrans; [symmetry; apply Permutation_middle|].
    apply Permutation_cons_append.
  - rewrite HE. simpl. by rewrite He, HE0.
Qed.

Lemma step_pool_inv p p' : pool_inv c stories p → step p p' → pool_inv c stories p'.
Proof.
  intros Hinv Hstep. pose proof Hinv as [Hl Hs Hc Hr He].
  destruct Hstep as [i p Hw Hroom | i j p Hzero Hi Hj | i p Hw | i s p Hw Hst
                    | i p Hw Hpos | i p Hw].
  - eapply pool_inv_move; eauto; simpl; lia.
  - exfalso. pose proof (count_positive holds_permit _ _ _ Hj eq_refl).
    unfold permits_held in Hs. lia.
  - eapply pool_inv_move; eauto; simpl; lia.
  - by apply pool_inv_deliver.
  - eapply pool_inv_move; eauto; simpl; lia.
  - eapply pool_inv_move; eauto; simpl; lia.
Qed.

Lemma rtc_pool_inv p p' : pool_inv c stories p → rtc step p p' → pool_inv c stories p'.
Proof. intros Hinv Hrun. induction Hrun; eauto using step_pool_inv. Qed.

(** Every step uses up one of the steps that remain. *)
Lemma step_remaining p p' : step p p' → (remaining p' < remaining p)%nat.
Proof.
  unfold remaining.
  intros [i p0 Hw Hroom | i j p0 Hzero Hi Hj | i p0 Hw | i s p0 Hw Hst
         | i p0 Hw Hpos | i p0 Hw]; simpl.
  - pose proof (sum_list_with_insert rank _ _ _ Acquired Hw). simpl in *. lia.
  - assert (Hij : i ≠ j) by (intros ->; congruence).
    assert (Hj' : <[i := Acquired]> (workers p0) !! j = Some Checked)
      by (by rewrite list_lookup_insert_ne).
    pose proof (sum_list_with_insert rank _ _ _ Acquired Hi).
    pose proof (sum_list_with_insert rank _ _ _ Released Hj'). simpl in *. lia.
  - pose proof (sum_list_with_insert rank _ _ _ Allocated Hw). simpl in *. lia.
  - pose proof (sum_list_with_insert rank _ _ _ Checked Hw) as Hsum.
    unfold deliver. destruct (Story_Check s (NewContext i) c) as [r [err|]];
      simpl in *; lia.
  - pose proof (sum_list_with_insert rank _ _ _ Released Hw). simpl in *. lia.
  - pose proof (sum_list_with_insert rank _ _ _ Done Hw). simpl in *. lia.
Qed.

Lemma nsteps_remaining n p p' : nsteps step n p p' → (n + remaining p' ≤ remaining p)%nat.
Proof.
  induction 1 as [|n p q r Hstep _ IH]; [lia|].
  apply step_remaining in Hstep. lia.
Qed.

Lemma remaining_init : remaining (init_pool stories) = (5 * length stories)%nat.
Proof.
  unfold remaining, init_pool. simpl.
  induction (length stories) as [|n IH]; simpl; [done|]. rewrite IH. lia.
Qed.


(** With room for one goroutine at least, a pool that is not done can
    take a step. *)
Lemma pool_progress p :
  1 ≤ MaxThreads c → pool_inv c stories p → ¬ all_done p → ∃ p', step p p'.
Proof.
  intros Hcap [Hl Hs Hc Hr He] Hnot.
  destruct (decide (Forall (λ w, w = Spawned ∨ w = Done) (workers p))) as [Hidle|Hbusy].
  - apply not_Forall_Exists in Hnot; [|apply _].
    apply Exists_exists in Hnot as (w & Hin & Hw).
    apply list_elem_of_lookup in Hin as [i Hi].
    assert (w = Spawned) as ->.
    { assert (Hin : w ∈ workers p) by (apply list_elem_of_lookup; eauto).
      destruct (proj1 (Forall_forall _ _) Hidle w Hin) as [->| ->]; [done|].
      by destruct Hw. }
    assert (sem p = 0%nat) as Hzero.
    { rewrite Hs. apply count_none. eapply Forall_impl; [exact Hidle|].
      by intros w [-> | ->]. }
    eexists. apply (step_acquire _ _ i p Hi). lia.
  - apply not_Forall_Exists in Hbusy; [|apply _].
    apply Exists_exists in Hbusy as (w & Hin & Hw).
    apply list_elem_of_lookup in Hin as [i Hi].
    destruct w.
    + destruct Hw. by left.
    + eexists. by apply (step_allocate _ _ i p).
    + assert (is_Some (stories !! i)) as [s Hst].
      { apply lookup_lt_is_Some. rewrite <- Hl. by eapply lookup_lt_Some. }
      eexists. by apply (step_check _ _ i s p).
    + eexists. apply (step_release _ _ i p Hi).
      rewrite Hs. by eapply count_positive.
    + eexists. by apply (step_teardown _ _ i p).
    + destruct Hw. by right.
Qed.

(** With room for one goroutine at least, a run can always be carried
    on until every goroutine is done. *)
Lemma pool_completes p :
  1 ≤ MaxThreads c → pool_inv c stories p →
  ∃ q, rtc step p q ∧ all_done q.
Proof.
  intros Hcap. remember (remaining p) as n eqn:Hn. revert p Hn.
  induction (lt_wf n) as [n _ IH]. intros p -> Hinv.
  destruct (decide (all_done p)) as [Hd|Hd]; [by exists p|].
  destruct (pool_progress p Hcap Hinv Hd) as [p' Hstep].
  destruct (IH _ (step_remaining _ _ Hstep) p' eq_refl (step_pool_inv _ _ Hinv Hstep))
    as (q & Hrun & Hq).
  exists q. split; [by eapply rtc_l|done].
Qed.
End PoolFacts.

(** ** [Config.Check] *)

Section OrchestratorFacts.
Context `{lib : Lib} {B : Type} `{br : Browser B} `{fs : FS} `{rt : Runtime}.


Lemma outcomes_one_of_two c stories : Forall one_of_two (outcomes c stories).
Proof.
  apply Forall_lookup. intros i o. unfold outcomes. rewrite list_lookup_imap.
  destruct (stories !! i) as [s|]; [|done]. intros [= <-].
  apply Story_Check_exclusive.
Qed.

Lemma sent_split (l : list (option RegressionTestResult * option error)) :
  Forall one_of_two l →
  concat (sent_result <$> l)
    = Some <$> omap (λ o, match o with (Some r, None) => Some r | _ => None end) l
  ∧ concat (sent_error <$> l) = omap (λ o, o.2) l
  ∧ (length (omap (λ o, match o with (Some r, None) => Some r | _ => None end) l)
     + length (omap (λ o : option RegressionTestResult * option error, o.2) l)
     = length l)%nat.
Proof.
  induction 1 as [|o l [[r ->] | [e ->]] _ (IH1 & IH2 & IH3)]; csimpl; [done| |].
  - rewrite IH1, IH2. repeat split; try done. simpl. lia.
  - rewrite IH1, IH2. repeat split; try done. simpl. lia.
Qed.

Lemma deref_all_Some xs :
  Forall is_Some xs → deref_all xs = Some (omap id xs).
Proof.
  induction 1 as [|x xs [r ->] _ IH]; csimpl; [done|]. by rewrite IH.
Qed.

Lemma omap_id_Some (l : list RegressionTestResult) : omap id (Some <$> l) = l.
Proof. induction l as [|x l IH]; csimpl; [done | by rewrite IH]. Qed.

(** What [Config.Check] makes of the channels once every goroutine is
    done. *)
Lemma collect_all_done c stories p :
  pool_inv c stories p → all_done p →
  ∃ rs errs,
    rs ≡ₚ successes c stories ∧ errs ≡ₚ failures c stories ∧
    (length rs + length errs = length stories)%nat ∧
    collect p = match errs with
                | [] => Returns rs None
                | _ => Returns [] (Some (aggregate errs))
                end.
Proof.
  intros [Hl Hs Hc Hr He] Hdone.
  rewrite delivered_all_done in Hr by (done || by rewrite outcomes_length).
  rewrite delivered_all_done in He by (done || by rewrite outcomes_length).
  destruct (sent_split _ (outcomes_one_of_two c stories)) as (E1 & E2 & E3).
  rewrite E1 in Hr. rewrite E2 in He. rewrite outcomes_length in E3.
  fold (successes c stories) in Hr, E3. fold (failures c stories) in He, E3.
  assert (Hsome : Forall is_Some (results p)).
  { rewrite Hr. apply Forall_fmap, Forall_true. intros r. by eexists. }
  exists (omap id (results p)), (errors p).
  assert (Hrs : omap id (results p) ≡ₚ successes c stories).
  { rewrite Hr. by rewrite omap_id_Some. }
  split; [done|]. split; [done|]. split.
  - rewrite Hrs, He. done.
  - unfold collect. rewrite (deref_all_Some _ Hsome).
    destruct (errors p) as [|e errs]; reflexivity.
Qed.

(** With no room in [sem] the goroutines cannot take a step. *)
Lemma init_pool_stuck c stories p :
  MaxThreads c = 0 → rtc (step c stories) (init_pool stories) p → p = init_pool stories.
Proof.
  intros Hzero Hrun.
  apply rtc_inv in Hrun as [<- | (p1 & Hstep & _)]; [done|]. exfalso.
  assert (Hsp : ∀ i w, workers (init_pool stories) !! i = Some w → w = Spawned).
  { intros i w. simpl. intros Hw. by apply lookup_replicate in Hw as [-> _]. }
  inversion Hstep as [i p0 Hw Hroom | i j p0 _ Hi Hj | i p0 Hw | i s p0 Hw Hst
                     | i p0 Hw Hpos | i p0 Hw]; subst;
    try (apply Hsp in Hw; discriminate).
  - simpl in Hroom. lia.
  - apply Hsp in Hj. discriminate.
Qed.

(** A capacity of zero, the value of [max_threads] when the
    configuration does not set it, and one story at least: the call has
    no outcome. *)
Lemma Config_Check_blocks c path stories :
  GetAllStories path = (stories, None) →
  FileExists (filepath_Join [path; "package.json"]) = true →
  MaxThreads c = 0 →
  stories ≠ [] →
  ∀ o, ¬ Config_Check c path o.
Proof.
  intros Hst Hpkg Hzero Hne o Hcheck.
  destruct Hcheck as [st err H1 | st H1 H2 | st H1 H2 H3 | st p H1 H2 H3 Hrun Hdone];
    try congruence; try lia.
  assert (st = stories) as -> by congruence.
  apply init_pool_stuck in Hrun as ->; [|done].
  unfold all_done in Hdone. simpl in Hdone.
  destruct stories as [|s rest]; [done|]. simpl in Hdone.
  by apply Forall_cons in Hdone as [? _].
Qed.

(** X22: when discovery succeeded, the root holds [package.json] and
    [MaxThreads] is at least 1, [Config.Check] returns, whatever the
    order of the goroutines, after all of them are done: every run of
    the goroutines can be carried on to the end and has at most five
    steps for each story.  Every story has then sent its result or its
    error; with an error among them the call returns no results and one
    error made of the errors, in some order, and without one it returns
    the results of all the stories, in some order, and no error (an
    empty list when there are no stories). *)
Theorem Config_Check_all_or_nothing c path stories :
  GetAllStories path = (stories, None) →
  FileExists (filepath_Join [path; "package.json"]) = true →
  1 ≤ MaxThreads c →
  (∃ o, Config_Check c path o) ∧
  (∀ p, rtc (step c stories) (init_pool stories) p →
        ∃ q, rtc (step c stories) p q ∧ all_done q) ∧
  (∀ n p, nsteps (step c stories) n (init_pool stories) p →
          (n ≤ 5 * length stories)%nat) ∧
  (∀ o, Config_Check c path o →
        ∃ rs errs,
          rs ≡ₚ successes c stories ∧ errs ≡ₚ failures c stories ∧
          (length rs + length errs = length stories)%nat ∧
          o = match errs with
              | [] => Returns rs None
              | _ => Returns [] (Some (aggregate errs))
              end) ∧
  (stories = [] → ∀ o, Config_Check c path o → o = Returns [] None).
Proof.
  intros Hst Hpkg Hcap.
  assert (Hinit : pool_inv c stories (init_pool stories))
    by (apply init_pool_inv; lia).
  assert (Hall : ∀ o, Config_Check c path o →
            ∃ rs errs,
              rs ≡ₚ successes c stories ∧ errs ≡ₚ failures c stories ∧
              (length rs + length errs = length stories)%nat ∧
              o = match errs with
                  | [] => Returns rs None
                  | _ => Returns [] (Some (aggregate errs))
                  end).
  { intros o Hcheck.
    destruct Hcheck as [st err H1 | st H1 H2 | st H1 H2 H3 | st p H1 H2 H3 Hrun Hdone];
      try congruence; try lia.
    assert (st = stories) as -> by congruence.
    apply collect_all_done; [|done]. by eapply rtc_pool_inv. }
  split; [|split; [|split; [|split]]].
  - destruct (pool_completes c stories _ Hcap Hinit) as (q & Hrun & Hq).
    exists (collect q). eapply Check_joined; eauto. lia.
  - intros p Hrun. apply pool_completes; [done|]. by eapply rtc_pool_inv.
  - intros n p Hn. apply nsteps_remaining in Hn. rewrite remaining_init in Hn. lia.
  - exact Hall.
  - intros -> o Ho. destruct (Hall o Ho) as (rs & errs & _ & _ & Hlen & ->).
    destruct rs; [|simpl in Hlen; lia]. destruct errs; [done|simpl in Hlen; lia].
Qed.
End OrchestratorFacts.

Section Ceiling.
Context `{lib : Lib} {B : Type} `{br : Browser B}.

(** The send on [sem] comes before the browser context, and the number
    of goroutines between their send and their receive never exceeds
    [MaxThreads]. *)
Lemma permits_within_capacity c stories p :
  0 ≤ MaxThreads c →
  rtc (step c stories) (init_pool stories) p →
  Z.of_nat (permits_held p) ≤ MaxThreads c.
Proof.
  intros Hcap Hrun.
  destruct (rtc_pool_inv c stories _ _ (init_pool_inv c stories Hcap) Hrun)
    as [_ Hs Hc _ _].
  by rewrite <- Hs.
Qed.

(** A goroutine gets its browser context only from the place where it
    holds a permit. *)
Lemma allocated_after_acquired c stories p p' i w :
  step c stories p p' →
  workers p !! i = Some w →
  workers p' !! i = Some Allocated →
  w = Allocated ∨ w = Acquired.
Proof.
  assert (Hins : ∀ (ws : list pc) k x,
            <[k := x]> ws !! i = Some Allocated →
            (k = i ∧ x = Allocated) ∨ ws !! i = Some Allocated).
  { intros ws k x. destruct (decide (k = i)) as [->|Hne].
    - intros H. pose proof (lookup_lt_Some _ _ _ H) as Hlt.
      rewrite length_insert in Hlt. rewrite list_lookup_insert_eq in H by done.
      left. split; congruence.
    - rewrite list_lookup_insert_ne by done. by right. }
  intros Hstep Hw Hw'.
  destruct Hstep as [k p Hk Hroom | k j p Hzero Hk Hj | k p Hk | k s p Hk Hst
                    | k p Hk Hpos | k p Hk]; simpl in Hw'.
  - apply Hins in Hw' as [[_ ?] | H]; [done | left; congruence].
  - apply Hins in Hw' as [[_ ?] | H]; [done|].
    apply Hins in H as [[_ ?] | H]; [done | left; congruence].
  - apply Hins in Hw' as [[-> _] | H]; [right | left]; congruence.
  - unfold deliver in Hw'. destruct (Story_Check _ _ _) as [r [e|]]; simpl in Hw';
      (apply Hins in Hw' as [[_ ?] | H]; [done | left; congruence]).
  - apply Hins in Hw' as [[_ ?] | H]; [done | left; congruence].
  - apply Hins in Hw' as [[_ ?] | H]; [done | left; congruence].
Qed.

(** C4, at a failing input: with [MaxThreads] 1 and two stories there
    is a run in which the first goroutine has received from [sem] and
    not yet run its deferred [cancelCtx], and the second has sent on
    [sem] and made its context: one permit is held and two browser
    contexts are alive, more than [MaxThreads]. *)
Theorem contexts_exceed_MaxThreads c s0 s1 :
  MaxThreads c = 1 →
  ∃ p,
    rtc (step c [s0; s1]) (init_pool [s0; s1]) p ∧
    workers p = [Released; Allocated] ∧
    permits_held p = 1%nat ∧
    live_contexts p = 2%nat ∧
    MaxThreads c < Z.of_nat (live_contexts p).
Proof.
  intros Hcap.
  pose (p1 := mkPool [Acquired; Spawned] 1 [] []).
  pose (p2 := mkPool [Allocated; Spawned] 1 [] []).
  assert (H1 : step c [s0; s1] (init_pool [s0; s1]) p1).
  { apply (step_acquire c [s0; s1] 0 (init_pool [s0; s1])); [done|].
    change (Z.of_nat 0 < MaxThreads c). lia. }
  assert (H2 : step c [s0; s1] p1 p2) by by apply (step_allocate c [s0; s1] 0 p1).
  pose proof (step_check c [s0; s1] 0 s0 p2 eq_refl eq_refl) as H3.
  unfold deliver in H3.
  destruct (Story_Check s0 (NewContext 0) c) as [r [e|]]; simpl in H3.
  - pose (p3 := mkPool [Checked; Spawned] 1 [] [e]).
    pose (p4 := mkPool [Released; Spawned] 0 [] [e]).
    pose (p5 := mkPool [Released; Acquired] 1 [] [e]).
    pose (p6 := mkPool [Released; Allocated] 1 [] [e]).
    assert (H4 : step c [s0; s1] p3 p4).
    { apply (step_release c [s0; s1] 0 p3); [done|].
      change (0 < 1)%nat. lia. }
    assert (H5 : step c [s0; s1] p4 p5).
    { apply (step_acquire c [s0; s1] 1 p4); [done|].
      change (Z.of_nat 0 < MaxThreads c). lia. }
    assert (H6 : step c [s0; s1] p5 p6) by by apply (step_allocate c [s0; s1] 1 p5).
    exists p6. split; [|split; [done|split; [done|split; [done|]]]];
      [|rewrite Hcap; change (1 < 2); lia].
    do 6 (eapply rtc_l; [eassumption|]). apply rtc_refl.
  - pose (p3 := mkPool [Checked; Spawned] 1 [r] []).
    pose (p4 := mkPool [Released; Spawned] 0 [r] []).
    pose (p5 := mkPool [Released; Acquired] 1 [r] []).
    pose (p6 := mkPool [Released; Allocated] 1 [r] []).
    assert (H4 : step c [s0; s1] p3 p4).
    { apply (step_release c [s0; s1] 0 p3); [done|].
      change (0 < 1)%nat. lia. }
    assert (H5 : step c [s0; s1] p4 p5).
    { apply (step_acquire c [s0; s1] 1 p4); [done|].
      change (Z.of_nat 0 < MaxThreads c). lia. }
    assert (H6 : step c [s0; s1] p5 p6) by by apply (step_allocate c [s0; s1] 1 p5).
    exists p6. split; [|split; [done|split; [done|split; [done|]]]];
      [|rewrite Hcap; change (1 < 2); lia].
    do 6 (eapply rtc_l; [eassumption|]). apply rtc_refl.
Qed.
End Ceiling.

Lemma contexts_exceed_MaxThreads_witness :
  MaxThreads Demo.config = 1 ∧
  ∃ p,
    rtc (step (lib := Demo.lib) (br := Demo.browser) Demo.config [Demo.button; Demo.card])
        (init_pool [Demo.button; Demo.card]) p ∧
    live_contexts p = 2%nat.
Proof.
  split; [reflexivity|].
  destruct (contexts_exceed_MaxThreads (lib := Demo.lib) (br := Demo.browser)
              Demo.config Demo.button Demo.card eq_refl) as (p & Hrun & _ & _ & Hlive & _).
  exists p. exact (conj Hrun Hlive).
Defined.

(** An empty project: no stories are discovered, and the call returns
    the error of the missing manifest, not an empty list. *)
Lemma Config_Check_empty_project :
  GetAllStories (lib := Demo.lib) (fs := Demo.empty_files) (rt := Demo.runtime) "/proj"
    = ([], None) ∧
  Config_Check (lib := Demo.lib) (br := Demo.browser) (fs := Demo.empty_files)
    (rt := Demo.runtime) Demo.config "/proj"
    (Returns [] (Some "package.json not found in /proj")) ∧
  ¬ Config_Check (lib := Demo.lib) (br := Demo.browser) (fs := Demo.empty_files)
      (rt := Demo.runtime) Demo.config "/proj" (Returns [] None).
Proof.
  split; [reflexivity|]. split.
  - by apply (Check_no_manifest (lib := Demo.lib) (br := Demo.browser)
                (fs := Demo.empty_files) (rt := Demo.runtime) Demo.config "/proj" []).
  - intros H. inversion H as [st err H1 | st H1 H2 | st H1 H2 H3 | st p H1 H2 H3 Hrun Hdone].
    discriminate H2.
Qed.

Lemma Config_Check_all_or_nothing_witness :
  GetAllStories (lib := Demo.lib) (fs := Demo.files) (rt := Demo.runtime) "/proj"
    = ([ mkStory "/proj/src/10-atoms/Button.stories.tsx" "Primary" "atom" "Button";
         Demo.button; Demo.card ], None) ∧
  FileExists (fs := Demo.files) "/proj/package.json" = true ∧
  1 ≤ MaxThreads Demo.config ∧
  ∃ o, Config_Check (lib := Demo.lib) (br := Demo.browser) (fs := Demo.files)
         (rt := Demo.runtime) Demo.config "/proj" o.
Proof.
  split; [reflexivity|]. split; [reflexivity|]. split; [unfold Demo.config; simpl; lia|].
  apply (Config_Check_all_or_nothing (lib := Demo.lib) (br := Demo.browser)
           (fs := Demo.files) (rt := Demo.runtime) Demo.config "/proj" _ eq_refl eq_refl).
  unfold Demo.config; simpl; lia.
Defined.

(** ** The program in the small world *)

Example GetIgnoreFiles_demo :
  GetIgnoreFiles (lib := Demo.lib) (fs := Demo.files) (rt := Demo.runtime) "/proj"
  = ([ "out"; "secret"; "coverage"; "node_modules"; ".idea"; ".vscode"; ".DS_Store";
       "*.log"; "*.tmp"; "build"; "tmp"; "temp"; "dist"; "patches" ], None).
Proof. vm_compute. reflexivity. Qed.

Example GetIgnoreFiles_no_gitignore :
  GetIgnoreFiles (lib := Demo.lib) (fs := Demo.empty_files) (rt := Demo.runtime) "/proj"
  = (builtin_ignoreFiles, None).
Proof. reflexivity. Qed.

Example WalkDir_demo :
  WalkDir (lib := Demo.lib) (fs := Demo.files) "/proj" builtin_ignoreFiles
  = ([ "/proj/.gitignore"; "/proj/package.json";
       "/proj/src/10-atoms/Button.stories.tsx"; "/proj/src/misc/Card.stories.tsx" ], None).
Proof. reflexivity. Qed.

Example FindAllStringSubmatch_demo :
  FindAllStringSubmatch 0
    "xexport const A_b1: Story export const : Story export const Zz: Storyexport const Q: Stor"
  = [ ["export const A_b1: Story"; "A_b1"]; ["export const Zz: Story"; "Zz"] ].
Proof. reflexivity. Qed.

Example componentName_of_demo :
  componentName_of "/proj/src/10-atoms/Button.stories.tsx" = ("Button", None)
  ∧ componentName_of "" = (EmptyString, None)
  ∧ componentName_of "/proj/.gitignore" = (EmptyString, None).
Proof. repeat split. Qed.

Example organismType_of_demo :
  organismType_of "/proj/src/10-atoms/Button.stories.tsx" = "atom"
  ∧ organismType_of "/proj/src/99-drafts/10-atoms/Button.stories.tsx" = "draft"
  ∧ organismType_of "/proj/src/50-pages/10-atoms/Home.stories.tsx" = "atom"
  ∧ organismType_of "/proj/src/misc/Card.stories.tsx" = "draft".
Proof. repeat split. Qed.

Example Story_Check_demo :
  Story_Check (lib := Demo.lib) (br := Demo.browser) Demo.button 0%nat Demo.config
    = (Some Demo.created, None)
  ∧ Story_Check (lib := Demo.lib) (br := Demo.browser) Demo.button 1%nat Demo.config
    = (None, Some "context deadline exceeded")
  ∧ Story_Check (lib := Demo.lib) (br := Demo.browser) Demo.button 2%nat Demo.config
    = (None, Some "image: unknown format")
  ∧ Story_Check (lib := Demo.lib) (br := Demo.browser) Demo.button 0%nat
      (mkConfig "http://local host" "#root" 1)
    = (None, Some "parse: invalid character in host name").
Proof. repeat split. Qed.

(** The project of the small world with [max_threads] left out of the
    configuration: three stories are discovered and the call never
    returns. *)
Example Config_Check_blocks_demo :
  ∀ o, ¬ Config_Check (lib := Demo.lib) (br := Demo.browser) (fs := Demo.files)
           (rt := Demo.runtime) (mkConfig "http://localhost:6006" "#storybook-root" 0)
           "/proj" o.
Proof.
  eapply (Config_Check_blocks (lib := Demo.lib) (br := Demo.browser) (fs := Demo.files)
            (rt := Demo.runtime)); [vm_compute; reflexivity|reflexivity|reflexivity|done].
Qed.

(** * More of the program *)

(** ** Splitting and joining *)

Lemma length_append (a b : string) :
  String.length (a +:+ b) = (String.length a + String.length b)%nat.
Proof.
  induction a as [|ch a IH]; [done|].
  rewrite append_cons. simpl. by rewrite IH.
Qed.

Lemma string_drop_app (a b : string) : string_drop (String.length a) (a +:+ b) = b.
Proof. induction a as [|ch a IH]; [done|]. by rewrite append_cons. Qed.

Lemma HasPrefix_nil s : HasPrefix s EmptyString = true.
Proof. by destruct s. Qed.

Lemma Join_cons a rest sep :
  rest ≠ [] → Join (a :: rest) sep = a +:+ sep +:+ Join rest sep.
Proof. by destruct rest. Qed.

Lemma Join_snoc init x sep :
  init ≠ [] → Join (init ++ [x]) sep = Join init sep +:+ sep +:+ x.
Proof.
  induction init as [|a init IH]; [done|]. intros _.
  destruct init as [|b init]; [done|].
  change ((a :: b :: init) ++ [x]) with (a :: ((b :: init) ++ [x])).
  rewrite Join_cons by done. rewrite IH by done.
  rewrite (Join_cons a (b :: init)) by done. by rewrite !append_assoc.
Qed.

Lemma Join_elem (l : list string) sep e :
  e ∈ l → ∃ pre post, Join l sep = pre +:+ e +:+ post.
Proof.
  induction l as [|a l IH]; [by intros ?%elem_of_nil|].
  intros [->|Hin]%elem_of_cons.
  - destruct l as [|b l].
    + exists EmptyString, EmptyString. by rewrite append_nil_r.
    + exists EmptyString, (sep +:+ Join (b :: l) sep). by rewrite Join_cons.
  - destruct (IH Hin) as (pre & post & Hj). destruct l as [|b l]; [by apply elem_of_nil in Hin|].
    exists (a +:+ sep +:+ pre), post.
    rewrite Join_cons by done. rewrite Hj. by rewrite !append_assoc.
Qed.

Lemma genSplit_nonempty sep skip cur s : genSplit sep skip cur s ≠ [].
Proof.
  pose proof (genSplit_length sep skip cur s) as H.
  destruct (genSplit sep skip cur s); [simpl in H; lia | done].
Qed.

Lemma genSplit_Join sep s : sep ≠ EmptyString → ∀ skip cur,
  (skip ≤ String.length s)%nat →
  Join (genSplit sep skip cur s) sep = cur +:+ string_drop skip s.
Proof.
  intros Hsep. induction s as [|ch s IH]; intros skip cur Hskip.
  - simpl in Hskip. assert (skip = 0%nat) as -> by lia. simpl.
    by rewrite append_nil_r.
  - destruct skip as [|k].
    + cbn [genSplit string_drop].
      destruct (HasPrefix (String ch s) sep) eqn:Hp.
      * apply HasPrefix_spec in Hp as [post Hpost].
        destruct sep as [|c0 sep']; [done|].
        rewrite append_cons in Hpost. injection Hpost as <- ->.
        rewrite Join_cons by apply genSplit_nonempty.
        rewrite IH.
        -- cbn [String.length]. rewrite Nat.sub_succ, Nat.sub_0_r.
           rewrite string_drop_app. by rewrite append_nil_l, append_cons.
        -- cbn [String.length]. rewrite length_append. lia.
      * rewrite IH by (simpl; lia). simpl. by rewrite append_assoc.
    + cbn [genSplit string_drop]. apply IH. simpl in Hskip. lia.
Qed.

(** Joining the pieces of a split with the separator gives the string
    back. *)
Lemma Split_Join s sep : sep ≠ EmptyString → Join (Split s sep) sep = s.
Proof.
  intros Hsep. destruct sep as [|c sep]; [done|]. unfold Split.
  rewrite genSplit_Join by (done || lia). done.
Qed.

Lemma Contains_char_cons d s c :
  Contains (String d s) (String c EmptyString)
  = Ascii.eqb c d || Contains s (String c EmptyString).
Proof. cbn [Contains HasPrefix]. by rewrite HasPrefix_nil, andb_true_r. Qed.

Lemma Contains_char_app a b c :
  Contains (a +:+ b) (String c EmptyString)
  = Contains a (String c EmptyString) || Contains b (String c EmptyString).
Proof.
  induction a as [|d a IH]; [done|].
  rewrite append_cons, !Contains_char_cons, IH. by rewrite orb_assoc.
Qed.

(** No piece of a split on one byte holds that byte. *)
Lemma genSplit_char_free c s : ∀ cur,
  Contains cur (String c EmptyString) = false →
  Forall (λ piece, Contains piece (String c EmptyString) = false)
         (genSplit (String c EmptyString) 0 cur s).
Proof.
  induction s as [|d s IH]; intros cur Hcur.
  - by apply Forall_singleton.
  - cbn [genSplit HasPrefix]. rewrite HasPrefix_nil, andb_true_r.
    destruct (Ascii.eqb c d) eqn:E.
    + apply Forall_cons. split; [done|]. by apply IH.
    + apply IH. rewrite Contains_char_app, Hcur, Contains_char_cons, E. done.
Qed.

Lemma Split_char_free s c :
  Forall (λ piece, Contains piece (String c EmptyString) = false)
         (Split s (String c EmptyString)).
Proof. unfold Split. by apply genSplit_char_free. Qed.

Lemma nth_last_split (l : list string) :
  l ≠ [] → l = removelast l ++ [nth (length l - 1) l EmptyString].
Proof.
  induction l as [|a l IH]; [done|]. intros _.
  destruct l as [|b l]; [done|].
  change (removelast (a :: b :: l)) with (a :: removelast (b :: l)).
  replace (length (a :: b :: l) - 1)%nat with (S (length (b :: l) - 1))
    by (simpl; lia).
  cbn [nth app]. f_equal. by apply IH.
Qed.

(** ** More on discovery *)

Section MoreDiscovery.
Context `{lib : Lib} `{fs : FS} `{rt : Runtime}.

(** X1: the component name is the base name of the file up to its first
    dot: the path is a directory part that is empty or ends in a slash,
    then the name, then a rest that is empty or starts with a dot; the
    name and the rest hold no slash and the name holds no dot.  A file
    whose base name starts with a dot has the empty component name. *)
Theorem componentName_of_base_name p :
  ∃ dir name ext,
    componentName_of p = (name, None) ∧
    p = dir +:+ name +:+ ext ∧
    (dir = EmptyString ∨ ∃ d, dir = d +:+ "/") ∧
    Contains (name +:+ ext) "/" = false ∧
    Contains name "." = false ∧
    (ext = EmptyString ∨ HasPrefix ext "." = true).
Proof.
  unfold componentName_of.
  pose proof (Split_length p "/" ltac:(done)) as H1.
  pose proof (Split_Join p "/" ltac:(done)) as HJ1.
  pose proof (Split_char_free p "/") as HF1.
  destruct (Z.leb_spec (Z.of_nat (length (Split p "/"))) 0) as [Hle|_]; [lia|].
  assert (Hne : Split p "/" ≠ []) by (destruct (Split p "/"); [simpl in H1; lia|done]).
  pose proof (nth_last_split _ Hne) as Hsplit.
  set (lastPart := nth (length (Split p "/") - 1) (Split p "/") EmptyString) in *.
  clearbody lastPart.
  set (init := removelast (Split p "/")) in *. clearbody init.
  rewrite Hsplit in HJ1, HF1. clear Hsplit Hne H1.
  assert (Hlast : Contains lastPart "/" = false).
  { apply Forall_app in HF1 as [_ HF1]. exact (List.Forall_inv HF1). }
  assert (Hdir : ∃ dir, p = dir +:+ lastPart ∧ (dir = EmptyString ∨ ∃ d, dir = d +:+ "/")).
  { destruct init as [|a init].
    - exists EmptyString. split; [done | by left].
    - exists (Join (a :: init) "/" +:+ "/"). split.
      + rewrite <- HJ1. rewrite Join_snoc by done. by rewrite append_assoc.
      + right. by eexists. }
  destruct Hdir as (dir & Hp & Hdir).
  pose proof (Split_length lastPart "." ltac:(done)) as H2.
  pose proof (Split_Join lastPart "." ltac:(done)) as HJ2.
  pose proof (Split_char_free lastPart ".") as HF2.
  destruct (Z.leb_spec (Z.of_nat (length (Split lastPart "."))) 0) as [Hle|_]; [lia|].
  destruct (Split lastPart ".") as [|name rest]; [simpl in H2; lia|].
  apply Forall_cons in HF2 as [Hname _]. cbn [nth].
  assert (Hext : ∃ ext, lastPart = name +:+ ext ∧ (ext = EmptyString ∨ HasPrefix ext "." = true)).
  { destruct rest as [|b rest].
    - exists EmptyString. simpl in HJ2. rewrite append_nil_r. split; [done | by left].
    - exists ("." +:+ Join (b :: rest) "."). rewrite Join_cons in HJ2 by done.
      split; [by symmetry | right; apply HasPrefix_spec; by eexists]. }
  destruct Hext as (ext & Hl & Hext).
  exists dir, name, ext. rewrite <- Hl. by repeat split.
Qed.

Lemma take_word_spec s w r :
  take_word s = (w, r) → s = w +:+ r ∧ all_word w = true.
Proof.
  revert w r. induction s as [|ch s IH]; intros w r; cbn [take_word].
  - by intros [= <- <-].
  - destruct (is_word ch) eqn:E.
    + destruct (take_word s) as [w' r'] eqn:Et. intros [= <- <-].
      destruct (IH _ _ eq_refl) as [-> Hw]. split; [done|].
      cbn [all_word]. by rewrite E, Hw.
    + by intros [= <- <-].
Qed.


Lemma match_story_at_spec s m :
  match_story_at s = Some m →
  ∃ w post, m = [declaration w; w] ∧ w ≠ EmptyString ∧ all_word w = true ∧
            s = declaration w +:+ post.
Proof.
  unfold match_story_at, CutPrefix.
  destruct (HasPrefix s "export const ") eqn:Hp; [|done].
  apply HasPrefix_spec in Hp as [rest ->]. rewrite string_drop_app.
  destruct (take_word rest) as [w rest'] eqn:Et.
  apply take_word_spec in Et as [-> Hw].
  destruct (negb (String.eqb w EmptyString)) eqn:Hne; [|done].
  destruct (HasPrefix rest' ": Story") eqn:Hs; [|done].
  apply HasPrefix_spec in Hs as [post ->]. intros [= <-].
  exists w, post. split; [done|]. split.
  - intros ->. done.
  - split; [done|]. unfold declaration. by rewrite !append_assoc.
Qed.

Lemma Contains_tail ch s sub : Contains s sub = true → Contains (String ch s) sub = true.
Proof. intros H. cbn [Contains]. rewrite H. apply orb_true_r. Qed.

Lemma FindAllStringSubmatch_spec content : ∀ skip,
  Forall (λ m, ∃ w, m = [declaration w; w] ∧ w ≠ EmptyString ∧ all_word w = true ∧
                    Contains content (declaration w) = true)
         (FindAllStringSubmatch skip content).
Proof.
  induction content as [|ch content IH]; intros skip; cbn [FindAllStringSubmatch]; [done|].
  assert (Htail : ∀ k,
            Forall (λ m, ∃ w, m = [declaration w; w] ∧ w ≠ EmptyString ∧ all_word w = true ∧
                              Contains (String ch content) (declaration w) = true)
                   (FindAllStringSubmatch k content)).
  { intros k. eapply Forall_impl; [apply IH|].
    intros m (w & ? & ? & ? & ?). exists w. repeat split; try done.
    by apply Contains_tail. }
  destruct skip as [|k]; [|apply Htail].
  destruct (match_story_at (String ch content)) as [m|] eqn:Em; [|apply Htail].
  apply Forall_cons. split; [|apply Htail].
  apply match_story_at_spec in Em as (w & post & -> & Hne & Hw & Hs).
  exists w. repeat split; try done.
  apply Contains_spec. exists EmptyString, post. by rewrite Hs.
Qed.


Lemma add_stories_declared p content componentName matches stories :
  ReadFileToString p = (content, None) →
  componentName_of p = (componentName, None) →
  Forall (λ m, ∃ w, m = [declaration w; w] ∧ w ≠ EmptyString ∧ all_word w = true ∧
                    Contains content (declaration w) = true) matches →
  Forall declared stories →
  Forall declared (add_stories p componentName matches stories).
Proof.
  intros Hr Hc Hm. unfold add_stories. revert stories.
  induction Hm as [|m matches (w & -> & Hne & Hw & Hcont) _ IH]; intros stories Hs; simpl; [done|].
  apply IH. apply Forall_app. split; [done|]. apply Forall_singleton.
  unfold declared. simpl. rewrite Hc. repeat split; try done. by exists content.
Qed.

Lemma GetAllStories_loop_declared paths acc stories :
  Forall declared acc →
  GetAllStories_loop paths acc = (stories, None) →
  Forall declared stories.
Proof.
  revert acc. induction paths as [|p paths IH]; intros acc Hacc; simpl.
  - by intros [= <-].
  - destruct (ReadFileToString p) as [content [err|]] eqn:Hr; [done|].
    destruct (componentName_of p) as [name [err|]] eqn:Hc; [done|].
    apply IH. destruct (0 <? _)%nat; [|done].
    eapply add_stories_declared; eauto. apply FindAllStringSubmatch_spec.
Qed.

(** X2: every discovered story is declared in the file at its path: the
    file was read, the text [export const <Name>: Story] occurs in it,
    the name is a word that is not empty, and the component name is the
    one of the path. *)
Theorem GetAllStories_declared path stories s :
  GetAllStories path = (stories, None) → s ∈ stories →
  Name s ≠ EmptyString ∧ all_word (Name s) = true ∧
  ComponentName s = (componentName_of (Path s)).1 ∧
  ∃ content, ReadFileToString (Path s) = (content, None) ∧
             Contains content ("export const " +:+ Name s +:+ ": Story") = true.
Proof.
  unfold GetAllStories. intros H Hs.
  destruct (GetIgnoreFiles path) as [ignores [err|]]; [done|].
  destruct (WalkDir path ignores) as [paths [err|]]; [done|].
  apply GetAllStories_loop_declared in H; [|done].
  exact (proj1 (Forall_forall _ _) H s Hs).
Qed.

(** X3: for a discovered story the string that goes into the story id is
    its category followed by an s. *)
Theorem GetAllStories_plural path stories s :
  GetAllStories path = (stories, None) → s ∈ stories →
  OrganismType s ∈ categories ∧
  Story_GetOrganismTypeString s = OrganismType s +:+ "s".
Proof.
  intros H Hs.
  pose proof (proj1 (Forall_forall _ _) (GetAllStories_filed _ _ H) s Hs) as Hf.
  unfold filed in Hf.
  assert (Hc : OrganismType s ∈ categories) by (rewrite Hf; apply category_of_categories).
  split; [done|]. by apply GetOrganismTypeString_plural.
Qed.

(** X4: the walk returns no path that contains one of the tokens it was
    given. *)
Theorem WalkDir_returns_no_ignored_path path ignores files f t :
  WalkDir path ignores = (files, None) → f ∈ files → t ∈ ignores →
  Contains f t = false.
Proof.
  intros H Hf Ht. apply WalkDir_clean in H.
  pose proof (proj1 (Forall_forall _ _) H f Hf) as Hc. unfold clean in Hc.
  destruct (Contains f t) eqn:E; [|done].
  assert (existsb (Contains f) ignores = true); [|congruence].
  apply existsb_exists. exists t. split; [by apply list_elem_of_In|done].
Qed.

(** X5: the path of a discovered story holds none of the built-in tokens,
    whatever the [.gitignore] says; [temp] is one of them and occurs in
    [40-templates], so no discovered story is a template. *)
Theorem GetAllStories_avoids_builtin_tokens path stories s t :
  GetAllStories path = (stories, None) → s ∈ stories → t ∈ builtin_ignoreFiles →
  Contains (Path s) t = false ∧
  Contains (Path s) "40-templates" = false ∧
  OrganismType s ≠ ORGANISM_TYPE_TEMPLATE.
Proof.
  intros H Hs Ht.
  pose proof (proj1 (Forall_forall _ _) (GetAllStories_clean _ _ H) s Hs) as Hclean.
  assert (Hall : ∀ t', t' ∈ builtin_ignoreFiles → Contains (Path s) t' = false).
  { intros t' Ht'. unfold clean in Hclean.
    destruct (Contains (Path s) t') eqn:E; [|done].
    assert (existsb (Contains (Path s)) builtin_ignoreFiles = true); [|congruence].
    apply existsb_exists. exists t'. split; [by apply list_elem_of_In|done]. }
  split; [by apply Hall|]. split; [|by eapply GetAllStories_no_template].
  destruct (Contains (Path s) "40-templates") eqn:E; [|done].
  assert (Contains (Path s) "temp" = true) as Htemp
    by (eapply Contains_trans; [exact E | reflexivity]).
  rewrite Hall in Htemp; [done|]. unfold builtin_ignoreFiles.
  do 10 apply list_elem_of_further. apply list_elem_of_here.
Qed.

(** X6: a root directory whose own path holds a built-in token is skipped
    as a whole: discovery succeeds and finds nothing. *)
Theorem GetAllStories_ignored_root path ignores es :
  GetIgnoreFiles path = (ignores, None) →
  os_Lstat_tree path = Dir None es →
  existsb (Contains path) builtin_ignoreFiles = true →
  WalkDir path ignores = ([], None) ∧ GetAllStories path = ([], None).
Proof.
  intros Hig Htree Hex.
  assert (Hig' : existsb (Contains path) ignores = true).
  { apply existsb_exists in Hex as (t & Hin & Ht). apply existsb_exists.
    exists t. split; [|done].
    apply list_elem_of_In, (builtin_in_ignores _ _ Hig), list_elem_of_In, Hin. }
  assert (Hw : WalkDir path ignores = ([], None)).
  { unfold WalkDir, filepath_Walk. rewrite Htree. cbn [walk].
    unfold WalkDir_fn at 1. cbn [default]. rewrite Hig'. done. }
  split; [done|]. unfold GetAllStories. by rewrite Hig, Hw.
Qed.

(** X7: a root that [os.Lstat] rejects, or a root directory whose names
    cannot be read, makes the walk and discovery fail with that error,
    also when the path of the root holds an ignore token: the error is
    looked at first. *)
Theorem WalkDir_unreadable_root path ignores e :
  os_Lstat_tree path = Bad e ∨ (∃ es, os_Lstat_tree path = Dir (Some e) es) →
  WalkDir path ignores = ([], Some e) ∧
  ((GetIgnoreFiles path).2 = None → GetAllStories path = ([], Some e)).
Proof.
  intros Htree.
  assert (Hw : ∀ ig, WalkDir path ig = ([], Some e)).
  { intros ig. unfold WalkDir, filepath_Walk.
    destruct Htree as [-> | [es ->]]; cbn [walk]; unfold WalkDir_fn; by cbn. }
  split; [apply Hw|]. unfold GetAllStories.
  destruct (GetIgnoreFiles path) as [ig [err|]]; [done|]. intros _. by rewrite Hw.
Qed.

(** X8: no token that [GetIgnoreFiles] returns is empty, starts with [#] or
    holds a line feed; an empty token would make the walk skip every
    path. *)
Theorem GetIgnoreFiles_tokens_proper path l t :
  GetIgnoreFiles path = (l, None) → t ∈ l →
  t ≠ EmptyString ∧ HasPrefix t "#" = false ∧ Contains t LF = false.
Proof.
  assert (Hb : ∀ x, x ∈ builtin_ignoreFiles →
            x ≠ EmptyString ∧ HasPrefix x "#" = false ∧ Contains x LF = false).
  { intros x Hx. unfold builtin_ignoreFiles in Hx.
    repeat (apply elem_of_cons in Hx as [->|Hx]; [by repeat split|]).
    by apply elem_of_nil in Hx. }
  assert (Hg : ∀ content x, x ∈ gitignore_tokens content →
            x ≠ EmptyString ∧ HasPrefix x "#" = false ∧ Contains x LF = false).
  { intros content x Hx. unfold gitignore_tokens in Hx.
    apply list_elem_of_In, filter_In in Hx as [Hin Hk].
    apply andb_true_iff in Hk as [Hk1 Hk2].
    apply negb_true_iff in Hk1, Hk2. apply String.eqb_neq in Hk1.
    repeat split; try done.
    pose proof (Split_char_free content "010") as Hfree.
    apply list_elem_of_In in Hin.
    exact (proj1 (Forall_forall _ _) Hfree x Hin). }
  assert (Hm : ∀ content x, x ∈ merge_ignoreFiles builtin_ignoreFiles content →
            x ≠ EmptyString ∧ HasPrefix x "#" = false ∧ Contains x LF = false).
  { intros content x Hx. apply merge_ignoreFiles_spec in Hx as [Hx|Hx]; eauto. }
  unfold GetIgnoreFiles. intros H Ht.
  destruct (FileExists (filepath_Join [path; ".gitignore"])).
  - destruct (ReadFileToString _) as [content [err|]]; [done|].
    injection H as <-. eauto.
  - destruct (FileExists (filepath_Join [path; ".."; ".gitignore"])).
    + destruct (ReadFileToString _) as [content [err|]]; [done|].
      injection H as <-. eauto.
    + injection H as <-. eauto.
Qed.
End MoreDiscovery.

(** ** More on [Story.Check] and on the worker pool *)

Section MoreCapture.
Context `{lib : Lib} {B : Type} `{br : Browser B}.

(** X9: the root element may be configured with or without the leading
    [#]: both give the same check. *)
Theorem Story_Check_root_prefix s ctx c :
  HasPrefix (RootElement c) "#" = false →
  Story_Check s ctx (mkConfig (BaseURL c) ("#" +:+ RootElement c) (MaxThreads c))
  = Story_Check s ctx c.
Proof.
  intros Hno. unfold Story_Check. cbn [BaseURL].
  destruct (url_Parse (BaseURL c)) as [err|u]; [done|].
  assert (Htasks : ∀ u', Check_tasks (mkConfig (BaseURL c) ("#" +:+ RootElement c) (MaxThreads c)) u'
                         = Check_tasks c u').
  { intros u'. unfold Check_tasks. cbn [RootElement].
    assert (Hid : (CutPrefix ("#" +:+ RootElement c) "#").1 = (CutPrefix (RootElement c) "#").1).
    { assert (Hyes : HasPrefix ("#" +:+ RootElement c) "#" = true)
        by (apply HasPrefix_spec; by eexists).
      unfold CutPrefix. rewrite Hno, Hyes. cbn [fst]. apply string_drop_app. }
    by rewrite Hid. }
  by rewrite Htasks.
Qed.
End MoreCapture.

Section MorePool.
Context `{lib : Lib} {B : Type} `{br : Browser B}.

Lemma delivered_length c stories (ws : list pc) :
  (length (delivered sent_result ws (outcomes c stories))
   + length (delivered sent_error ws (outcomes c stories)) ≤ length ws)%nat.
Proof.
  generalize (outcomes c stories). induction ws as [|w ws IH]; intros [|o outs];
    cbn [delivered]; try (simpl; lia).
  rewrite !length_app. specialize (IH outs).
  destruct (ran w); [|simpl; lia].
  destruct o as [r [e|]]; simpl; lia.
Qed.

(** X10: at every moment of a run the number of goroutines between their
    send on [sem] and their receive from it is the number of values in
    [sem] and at most [MaxThreads], and the channels [results] and
    [errors] hold at most one value for each story, so a send on them
    never waits. *)
Theorem pool_within_capacity c stories p :
  0 ≤ MaxThreads c →
  rtc (step c stories) (init_pool stories) p →
  sem p = permits_held p ∧
  Z.of_nat (permits_held p) ≤ MaxThreads c ∧
  (length (results p) + length (errors p) ≤ length stories)%nat.
Proof.
  intros Hcap Hrun.
  destruct (rtc_pool_inv c stories _ _ (init_pool_inv c stories Hcap) Hrun)
    as [Hl Hs Hc Hr He].
  split; [done|]. split; [by rewrite <- Hs|].
  rewrite (Permutation_length Hr), (Permutation_length He), <- Hl.
  apply delivered_length.
Qed.

Lemma successes_elem c stories r :
  r ∈ successes c stories →
  ∃ i s, stories !! i = Some s ∧ Story_Check s (NewContext i) c = (Some r, None).
Proof.
  unfold successes, outcomes. intros Hr.
  apply list_elem_of_omap in Hr as ([r' e] & Hin & Hsome).
  apply list_elem_of_lookup in Hin as [i Hi].
  rewrite list_lookup_imap in Hi.
  destruct (stories !! i) as [s|] eqn:Hs; [|done]. injection Hi as Hi.
  exists i, s. split; [done|]. rewrite Hi.
  destruct r' as [r'|]; [|done]. destruct e; [done|]. by injection Hsome as ->.
Qed.
End MorePool.

Section MoreOrchestrator.
Context `{lib : Lib} {B : Type} `{br : Browser B} `{fs : FS} `{rt : Runtime}.

Lemma aggregate_unfold errs :
  aggregate errs
  = "errors occurred during regression test: [" +:+ Join errs " " +:+ "]".
Proof.
  unfold aggregate, fmt_errors.
  change (Sprintf "errors occurred during regression test: %v" ["[" +:+ Join errs " " +:+ "]"])
    with ("errors occurred during regression test: "
          +:+ ("[" +:+ Join errs " " +:+ "]") +:+ EmptyString).
  by rewrite !append_assoc, append_nil_r.
Qed.

(** What a call that gets as far as the worker pool makes of the
    stories. *)
Lemma Config_Check_collects c path stories o :
  GetAllStories path = (stories, None) →
  FileExists (filepath_Join [path; "package.json"]) = true →
  0 ≤ MaxThreads c →
  Config_Check c path o →
  ∃ rs errs,
    rs ≡ₚ successes c stories ∧ errs ≡ₚ failures c stories ∧
    o = match errs with
        | [] => Returns rs None
        | _ => Returns [] (Some (aggregate errs))
        end.
Proof.
  intros Hst Hpkg Hcap Hcheck.
  destruct Hcheck as [st err H1 | st H1 H2 | st H1 H2 H3 | st p H1 H2 H3 Hrun Hdone];
    try congruence; try lia.
  assert (st = stories) as -> by congruence.
  destruct (collect_all_done c stories p) as (rs & errs & ? & ? & _ & ?); eauto.
  eapply rtc_pool_inv; [|done]. by apply init_pool_inv.
Qed.

(** X11: with a capacity that is not negative [Config.Check] does not panic:
    no nil result is ever read from the channel. *)
Theorem Config_Check_no_panic c path o :
  0 ≤ MaxThreads c → Config_Check c path o → o ≠ Panics.
Proof.
  intros Hcap Hcheck.
  destruct Hcheck as [st err H1 | st H1 H2 | st H1 H2 H3 | st p H1 H2 H3 Hrun Hdone];
    try done; try lia.
  destruct (collect_all_done c st p) as (rs & errs & _ & _ & _ & ->).
  - eapply rtc_pool_inv; [|done]. by apply init_pool_inv.
  - done.
  - by destruct errs.
Qed.

(** X12: with [MaxThreads] 0, the value of a configuration that does not
    set [max_threads], a project without stories gives the empty list
    and a project with a story makes the call block for ever. *)
Theorem Config_Check_zero_capacity c path stories :
  GetAllStories path = (stories, None) →
  FileExists (filepath_Join [path; "package.json"]) = true →
  MaxThreads c = 0 →
  (stories = [] → ∀ o, Config_Check c path o ↔ o = Returns [] None) ∧
  (stories ≠ [] → ∀ o, ¬ Config_Check c path o).
Proof.
  intros Hst Hpkg Hzero. split.
  - intros -> o. split.
    + intros Hcheck.
      destruct Hcheck as [st err H1 | st H1 H2 | st H1 H2 H3 | st p H1 H2 H3 Hrun Hdone];
        try congruence; try lia.
      assert (st = []) as -> by congruence.
      by apply init_pool_stuck in Hrun as ->.
    + intros ->.
      apply (Check_joined c path [] (init_pool [])); try done; try lia.
      by apply Forall_nil_2.
  - intros Hne. by eapply Config_Check_blocks.
Qed.

(** X13: a negative [MaxThreads] makes the call panic when it makes the
    channel [sem], also when there is no story. *)
Theorem Config_Check_negative_capacity c path stories :
  GetAllStories path = (stories, None) →
  FileExists (filepath_Join [path; "package.json"]) = true →
  MaxThreads c < 0 →
  ∀ o, Config_Check c path o ↔ o = Panics.
Proof.
  intros Hst Hpkg Hneg o. split.
  - intros Hcheck.
    destruct Hcheck as [st err H1 | st H1 H2 | st H1 H2 H3 | st p H1 H2 H3 Hrun Hdone];
      try congruence; try lia; done.
  - intros ->. by eapply Check_negative_capacity.
Qed.

(** X14: without [package.json] at the root the call returns the error that
    names the root, after discovery and before anything else: neither
    the stories found nor [MaxThreads] matter. *)
Theorem Config_Check_missing_manifest c path stories :
  GetAllStories path = (stories, None) →
  FileExists (filepath_Join [path; "package.json"]) = false →
  ∀ o, Config_Check c path o
       ↔ o = Returns [] (Some ("package.json not found in " +:+ path)).
Proof.
  intros Hst Hpkg o.
  assert (Hmsg : Sprintf "package.json not found in %s" [path]
                 = "package.json not found in " +:+ path).
  { change (Sprintf "package.json not found in %s" [path])
      with ("package.json not found in " +:+ path +:+ EmptyString).
    by rewrite append_nil_r. }
  split.
  - intros Hcheck.
    destruct Hcheck as [st err H1 | st H1 H2 | st H1 H2 H3 | st p H1 H2 H3 Hrun Hdone];
      try congruence.
  - intros ->. rewrite <- Hmsg. by eapply Check_no_manifest.
Qed.

Lemma Config_Check_returned c path res r :
  Config_Check c path (Returns res None) → r ∈ res →
  ∃ stories i s u b v vh,
    GetAllStories path = (stories, None) ∧ stories !! i = Some s ∧
    chromedp_Run (NewContext i) (Check_tasks c (Check_target s u)) zero_Vars = ((b, v), None) ∧
    r = let test := mkRegressionTest (Name s) "full" (md5_Sum (html v))
                      (sha1_Sum (style v)) vh 0 in
        mkRegressionTestResult REGRESSION_TEST_STATUS_CREATED test test.
Proof.
  intros Hcheck Hr.
  assert (Hst : ∃ stories, GetAllStories path = (stories, None)
                ∧ FileExists (filepath_Join [path; "package.json"]) = true
                ∧ 0 ≤ MaxThreads c).
  { inversion Hcheck as [st err H1 | st H1 H2 | st H1 H2 H3 | st p H1 H2 H3 Hrun Hdone];
      eauto. }
  destruct Hst as (stories & Hst & Hpkg & Hcap).
  destruct (Config_Check_collects c path stories _ Hst Hpkg Hcap Hcheck)
    as (rs & errs & Hrs & _ & Heq).
  destruct errs; [|done]. injection Heq as ->.
  rewrite Hrs in Hr. apply successes_elem in Hr as (i & s & Hs & Hchk).
  apply Story_Check_Some in Hchk as (_ & u & b & v & _ & Hrun & Hres).
  apply Check_result_Some in Hres as (_ & vh & _ & ->).
  by exists stories, i, s, u, b, v, vh.
Qed.

(** X15: every result that [Config.Check] returns has the status "created"
    and its own fingerprint as the expected one, and is the result of
    one of the discovered stories. *)
Theorem Config_Check_results_created c path res r :
  Config_Check c path (Returns res None) → r ∈ res →
  Status r = REGRESSION_TEST_STATUS_CREATED ∧
  ExpectedTest r = CurrentTest r ∧
  Viewport (CurrentTest r) = "full" ∧
  ∃ stories s, GetAllStories path = (stories, None) ∧ s ∈ stories ∧
               Component (CurrentTest r) = Name s.
Proof.
  intros Hcheck Hr.
  destruct (Config_Check_returned c path res r Hcheck Hr)
    as (stories & i & s & u & b & v & vh & Hst & Hs & _ & ->).
  repeat split. exists stories, s. repeat split; [done|].
  apply list_elem_of_lookup. eauto.
Qed.

(** X16: when a story fails the call returns no results and an error whose
    message starts with the fixed text and holds the message of every
    story that failed. *)
Theorem Config_Check_error_names_failures c path stories res err i s e :
  GetAllStories path = (stories, None) →
  FileExists (filepath_Join [path; "package.json"]) = true →
  Config_Check c path (Returns res (Some err)) →
  stories !! i = Some s →
  Story_Check s (NewContext i) c = (None, Some e) →
  res = [] ∧
  HasPrefix err "errors occurred during regression test: [" = true ∧
  Contains err e = true.
Proof.
  intros Hst Hpkg Hcheck Hs Hfail.
  assert (Hcap : 0 ≤ MaxThreads c).
  { inversion Hcheck as [st er H1 | st H1 H2 | st H1 H2 H3 | st p H1 H2 H3 Hrun Hdone];
      try congruence. }
  destruct (Config_Check_collects c path stories _ Hst Hpkg Hcap Hcheck)
    as (rs & errs & _ & Herrs & Heq).
  assert (He : e ∈ errs).
  { rewrite Herrs. unfold failures. apply list_elem_of_omap.
    exists (None, Some e). split; [|done].
    apply list_elem_of_lookup. exists i. rewrite <- Hfail. by apply outcomes_lookup. }
  destruct errs as [|e0 errs]; [by apply elem_of_nil in He|].
  injection Heq as -> ->. split; [done|].
  rewrite aggregate_unfold. split.
  - apply HasPrefix_spec. by eexists.
  - destruct (Join_elem (e0 :: errs) " " e He) as (pre & post & ->).
    apply Contains_spec.
    exists ("errors occurred during regression test: [" +:+ pre), (post +:+ "]").
    by rewrite !append_assoc.
Qed.
End MoreOrchestrator.

(** ** Configuration, environment and the command line *)

Section MoreCommandLine.
Context `{lib : Lib} {B : Type} `{br : Browser B} `{fs : FS} `{rt : Runtime} `{os : OS}.

(** X17: [LoadConfig] returns a configuration exactly when the file opens,
    can be read and parses, and the base URL is not empty; nothing else
    is checked, so [MaxThreads] may be zero or negative. *)
Theorem LoadConfig_accepts path c :
  LoadConfig path = inr c ↔
  os_Open path = None ∧
  ∃ data, io_ReadAll path = inr data ∧ json_Unmarshal data = inr c ∧
          BaseURL c ≠ EmptyString.
Proof.
  unfold LoadConfig. split.
  - destruct (os_Open path); [done|].
    destruct (io_ReadAll path) as [e|data]; [done|].
    destruct (json_Unmarshal data) as [e|config] eqn:Hj; [done|].
    destruct (String.eqb_spec (BaseURL config) EmptyString) as [He|Hne]; [done|].
    intros [= <-]. split; [done|]. by exists data.
  - intros (-> & data & -> & -> & Hne).
    by destruct (String.eqb_spec (BaseURL c) EmptyString).
Qed.

(** X18: the environment that [GetEnvironment] returns names a configuration
    file that exists: the one in the working directory, and the one in
    the home directory only when the working directory has none. *)
Theorem GetEnvironment_prefers_local env :
  GetEnvironment = Value env →
  os_Getwd = inr (Cwd env) ∧ os_UserHomeDir = inr (Home env) ∧
  FileExists (ConfigPath env) = true ∧
  (ConfigPath env = filepath_Join [Cwd env; "visage.json"]
   ∨ (FileExists (filepath_Join [Cwd env; "visage.json"]) = false
      ∧ ConfigPath env = filepath_Join [Home env; ".config"; "visage.json"])).
Proof.
  unfold GetEnvironment, GetCwdDir, GetHomeDir.
  destruct os_Getwd as [e|cwd]; [done|]. destruct os_UserHomeDir as [e|home]; [done|].
  destruct (FileExists (filepath_Join [cwd; "visage.json"])) eqn:Hl.
  - intros [= <-]. simpl. repeat split; try done. by left.
  - destruct (FileExists (filepath_Join [home; ".config"; "visage.json"])) eqn:Hh; [|done].
    intros [= <-]. simpl. repeat split; try done. by right.
Qed.

Lemma main_prepare_Value args env config :
  (2 ≤ length args)%nat →
  GetEnvironment = Value env →
  LoadConfig (ConfigPath env) = inr config →
  main_prepare args = Value (nth 1 args EmptyString, env, config).
Proof.
  intros Hargs Henv Hcfg. unfold main_prepare.
  destruct (Nat.ltb_spec (length args) 2) as [?|_]; [lia|].
  by rewrite Henv, Hcfg.
Qed.

(** X19: a command other than [check] ends in "Unknown command", but only
    once the environment and the configuration have been found. *)
Theorem main_unknown_command args env config :
  (2 ≤ length args)%nat →
  nth 1 args EmptyString ≠ "check" →
  GetEnvironment = Value env →
  LoadConfig (ConfigPath env) = inr config →
  ∀ o, main_run args o ↔ o = Fatal "Unknown command".
Proof.
  intros Hargs Hcmd Henv Hcfg o.
  pose proof (main_prepare_Value args env config Hargs Henv Hcfg) as Hp.
  split.
  - intros Hrun.
    destruct Hrun as [msg H | H | cmd e c0 H Hne | e c0 res err H Hc | e c0 H Hc
                     | e c0 res H Hc]; try congruence.
  - intros ->. by eapply main_unknown.
Qed.

(** X20: what [check] prints when it succeeds: three lines for each result,
    every status is "created" and the expected hash printed is the hash
    printed before it. *)
Theorem main_report args lines :
  main_run args (Value lines) →
  ∃ res,
    lines = report res ∧
    length lines = (3 * length res)%nat ∧
    Forall (λ r, Status r = "created"
                 ∧ VisualHash (ExpectedTest r) = VisualHash (CurrentTest r)) res.
Proof.
  intros Hrun.
  inversion Hrun as [msg H | H | cmd e c0 H Hne | e c0 res err H Hc | e c0 H Hc
                    | e c0 res H Hc]; subst.
  exists res. split; [done|]. split.
  - unfold report. clear. induction res as [|r res IH]; [done|].
    cbn [flat_map]. rewrite length_app, IH. simpl. lia.
  - apply Forall_forall. intros r Hr.
    destruct (Config_Check_returned _ _ _ r Hc Hr)
      as (stories & i & s & u & b & v & vh & _ & _ & _ & ->).
    by split.
Qed.

(** X21: [check] with a configuration that does not set [max_threads],
    on a project with a manifest and a story, does not end on its own:
    [Config.Check] does not return, so [main] prints no report and
    reaches neither a [log.Fatal] nor a panic of the program.  What is
    left is that the process hangs or that the Go runtime stops it with
    its own deadlock error. *)
Theorem main_check_blocks args env config stories :
  (2 ≤ length args)%nat →
  nth 1 args EmptyString = "check" →
  GetEnvironment = Value env →
  LoadConfig (ConfigPath env) = inr config →
  MaxThreads config = 0 →
  GetAllStories (mockedFilePath env) = (stories, None) →
  stories ≠ [] →
  FileExists (filepath_Join [mockedFilePath env; "package.json"]) = true →
  (∀ o, ¬ Config_Check config (mockedFilePath env) o) ∧
  (∀ lines, ¬ main_run args (Value lines)) ∧
  (∀ msg, ¬ main_run args (Fatal msg)) ∧
  ¬ main_run args Panic.
Proof.
  intros Hargs Hcmd Henv Hcfg Hzero Hst Hne Hpkg.
  assert (Hblock : ∀ o, ¬ Config_Check config (mockedFilePath env) o)
    by by eapply (Config_Check_blocks config).
  assert (Hmain : ∀ o, ¬ main_run args o).
  { intros o Hrun.
    pose proof (main_prepare_Value args env config Hargs Henv Hcfg) as Hp.
    rewrite Hcmd in Hp.
    destruct Hrun as [msg H | H | cmd e c0 H Hn | e c0 res err H Hc | e c0 H Hc
                     | e c0 res H Hc]; try congruence;
      rewrite Hp in H; injection H as <- <-; by eapply Hblock. }
  split; [done|]. split; [intros lines; apply Hmain|].
  split; [intros msg; apply Hmain | apply Hmain].
Qed.
End MoreCommandLine.

(** ** The added properties in the small worlds *)

(** A call that gets as far as the worker pool with room for one
    goroutine has an outcome. *)
Lemma Config_Check_exists `{lib : Lib} {B : Type} `{br : Browser B} `{fs : FS}
    `{rt : Runtime} c path stories :
  GetAllStories path = (stories, None) →
  FileExists (filepath_Join [path; "package.json"]) = true →
  1 ≤ MaxThreads c →
  ∃ rs errs,
    rs ≡ₚ successes c stories ∧ errs ≡ₚ failures c stories ∧
    Config_Check c path (match errs with
                         | [] => Returns rs None
                         | _ => Returns [] (Some (aggregate errs))
                         end).
Proof.
  intros Hst Hpkg Hcap.
  assert (Hinit : pool_inv c stories (init_pool stories)) by (apply init_pool_inv; lia).
  destruct (pool_completes c stories _ Hcap Hinit) as (q & Hrun & Hq).
  destruct (collect_all_done c stories q) as (rs & errs & Hrs & Herrs & _ & Hcol);
    [by eapply rtc_pool_inv | done |].
  exists rs, errs. split; [done|]. split; [done|].
  rewrite <- Hcol. eapply Check_joined; eauto. lia.
Qed.

Lemma Shell_check_returns :
  ∃ res,
    res ≡ₚ successes (lib := Demo.lib) (br := Shell.browser) Shell.local_config
             [Shell.small; Shell.withIcon] ∧
    Config_Check (lib := Demo.lib) (br := Shell.browser) (fs := Shell.files)
      (rt := Demo.runtime) Shell.local_config Shell.root (Returns res None).
Proof.
  destruct (Config_Check_exists (lib := Demo.lib) (br := Shell.browser) (fs := Shell.files)
              (rt := Demo.runtime) Shell.local_config Shell.root
              [Shell.small; Shell.withIcon] eq_refl eq_refl)
    as (rs & errs & Hrs & Herrs & Hc); [done|].
  change (failures Shell.local_config [Shell.small; Shell.withIcon]) with (@nil error) in Herrs.
  apply Permutation_nil_r in Herrs as ->. by exists rs.
Qed.

Lemma Demo_check_fails :
  ∃ err,
    Config_Check (lib := Demo.lib) (br := Demo.browser) (fs := Demo.files)
      (rt := Demo.runtime) Demo.config "/proj" (Returns [] (Some err)).
Proof.
  destruct (Config_Check_exists (lib := Demo.lib) (br := Demo.browser) (fs := Demo.files)
              (rt := Demo.runtime) Demo.config "/proj" _ eq_refl eq_refl)
    as (rs & errs & Hrs & Herrs & Hc); [done|].
  destruct errs as [|e errs]; [|by eexists].
  apply Permutation_nil_l in Herrs. discriminate Herrs.
Qed.

Lemma GetAllStories_declared_witness :
  GetAllStories (lib := Demo.lib) (fs := Demo.files) (rt := Demo.runtime) "/proj"
    = ([ mkStory "/proj/src/10-atoms/Button.stories.tsx" "Primary" "atom" "Button";
         Demo.button; Demo.card ], None) ∧
  Name Demo.button ≠ EmptyString ∧ all_word (Name Demo.button) = true ∧
  ComponentName Demo.button = (componentName_of (Path Demo.button)).1.
Proof.
  split; [reflexivity|].
  destruct (GetAllStories_declared (lib := Demo.lib) (fs := Demo.files) (rt := Demo.runtime)
              "/proj" _ Demo.button eq_refl) as (H1 & H2 & H3 & _).
  - apply list_elem_of_further, list_elem_of_here.
  - exact (conj H1 (conj H2 H3)).
Defined.

Lemma GetAllStories_plural_witness :
  GetAllStories (lib := Demo.lib) (fs := Demo.files) (rt := Demo.runtime) "/proj"
    = ([ mkStory "/proj/src/10-atoms/Button.stories.tsx" "Primary" "atom" "Button";
         Demo.button; Demo.card ], None) ∧
  Story_GetOrganismTypeString Demo.card = "drafts".
Proof.
  split; [reflexivity|].
  refine (proj2 (GetAllStories_plural (lib := Demo.lib) (fs := Demo.files)
                   (rt := Demo.runtime) "/proj" _ Demo.card eq_refl _)).
  apply list_elem_of_further, list_elem_of_further, list_elem_of_here.
Defined.

Lemma WalkDir_returns_no_ignored_path_witness :
  WalkDir (lib := Demo.lib) (fs := Demo.files) "/proj" ["dist"; "secret"]
    = ([ "/proj/.gitignore"; "/proj/package.json";
         "/proj/src/10-atoms/Button.stories.tsx"; "/proj/src/misc/Card.stories.tsx" ], None) ∧
  Contains "/proj/package.json" "dist" = false.
Proof.
  split; [reflexivity|].
  apply (WalkDir_returns_no_ignored_path (lib := Demo.lib) (fs := Demo.files)
           "/proj" ["dist"; "secret"] _ "/proj/package.json" "dist" eq_refl).
  - apply list_elem_of_further, list_elem_of_here.
  - apply list_elem_of_here.
Defined.

Lemma GetAllStories_avoids_builtin_tokens_witness :
  GetAllStories (lib := Demo.lib) (fs := Demo.files) (rt := Demo.runtime) "/proj"
    = ([ mkStory "/proj/src/10-atoms/Button.stories.tsx" "Primary" "atom" "Button";
         Demo.button; Demo.card ], None) ∧
  Contains (Path Demo.button) "temp" = false ∧
  OrganismType Demo.button ≠ ORGANISM_TYPE_TEMPLATE.
Proof.
  split; [reflexivity|].
  destruct (GetAllStories_avoids_builtin_tokens (lib := Demo.lib) (fs := Demo.files)
              (rt := Demo.runtime) "/proj" _ Demo.button "temp" eq_refl) as (H1 & _ & H3).
  - apply list_elem_of_further, list_elem_of_here.
  - unfold builtin_ignoreFiles. do 10 apply list_elem_of_further. apply list_elem_of_here.
  - exact (conj H1 H3).
Defined.

Lemma GetAllStories_ignored_root_witness :
  GetIgnoreFiles (lib := Demo.lib) (fs := Demo.files) (rt := Demo.runtime) "/tmp/proj"
    = (builtin_ignoreFiles, None) ∧
  os_Lstat_tree (FS := Demo.files) "/tmp/proj"
    = Dir None
        [ (".gitignore", File);
          ("dist", Dir None [("Button.stories.js", File)]);
          ("package.json", File);
          ("src", Dir None
             [ ("10-atoms", Dir None [("Button.stories.tsx", File)]);
               ("misc", Dir None [("Card.stories.tsx", File)]) ]) ] ∧
  existsb (Contains "/tmp/proj") builtin_ignoreFiles = true ∧
  GetAllStories (lib := Demo.lib) (fs := Demo.files) (rt := Demo.runtime) "/tmp/proj"
    = ([], None).
Proof.
  split; [reflexivity|]. split; [reflexivity|]. split; [reflexivity|].
  exact (proj2 (GetAllStories_ignored_root (lib := Demo.lib) (fs := Demo.files)
                  (rt := Demo.runtime) "/tmp/proj" _ _ eq_refl eq_refl eq_refl)).
Defined.

Lemma GetIgnoreFiles_tokens_proper_witness :
  GetIgnoreFiles (lib := Demo.lib) (fs := Demo.files) (rt := Demo.runtime) "/proj"
    = ([ "out"; "secret"; "coverage"; "node_modules"; ".idea"; ".vscode"; ".DS_Store";
         "*.log"; "*.tmp"; "build"; "tmp"; "temp"; "dist"; "patches" ], None) ∧
  "secret" ≠ EmptyString ∧ HasPrefix "secret" "#" = false ∧ Contains "secret" LF = false.
Proof.
  split; [vm_compute; reflexivity|].
  apply (GetIgnoreFiles_tokens_proper (lib := Demo.lib) (fs := Demo.files)
           (rt := Demo.runtime) "/proj" _ "secret" GetIgnoreFiles_demo).
  apply list_elem_of_further, list_elem_of_here.
Defined.

Lemma Story_Check_root_prefix_witness :
  HasPrefix (RootElement (mkConfig "http://localhost:6006" "storybook-root" 1)) "#" = false ∧
  Story_Check (lib := Demo.lib) (br := Demo.browser) Demo.button 0%nat Demo.config
  = Story_Check (lib := Demo.lib) (br := Demo.browser) Demo.button 0%nat
      (mkConfig "http://localhost:6006" "storybook-root" 1).
Proof.
  split; [reflexivity|].
  exact (Story_Check_root_prefix (lib := Demo.lib) (br := Demo.browser) Demo.button 0%nat
           (mkConfig "http://localhost:6006" "storybook-root" 1) eq_refl).
Defined.

Lemma pool_within_capacity_witness :
  0 ≤ MaxThreads Demo.config ∧
  rtc (step (lib := Demo.lib) (br := Demo.browser) Demo.config [Demo.button; Demo.card])
      (init_pool [Demo.button; Demo.card])
      (mkPool [Acquired; Spawned] 1 [] []) ∧
  Z.of_nat (permits_held (mkPool [Acquired; Spawned] 1 [] [])) ≤ MaxThreads Demo.config.
Proof.
  assert (Hrun : rtc (step (lib := Demo.lib) (br := Demo.browser) Demo.config
                        [Demo.button; Demo.card])
                     (init_pool [Demo.button; Demo.card])
                     (mkPool [Acquired; Spawned] 1 [] [])).
  { apply rtc_once.
    apply (step_acquire (lib := Demo.lib) (br := Demo.browser) Demo.config
             [Demo.button; Demo.card] 0 (init_pool [Demo.button; Demo.card]));
      [reflexivity | reflexivity]. }
  split; [discriminate|]. split; [exact Hrun|].
  refine (proj1 (proj2 (pool_within_capacity (lib := Demo.lib) (br := Demo.browser)
                          Demo.config [Demo.button; Demo.card] _ _ Hrun))).
  discriminate.
Defined.

Lemma Config_Check_no_panic_witness :
  0 ≤ MaxThreads Shell.local_config ∧
  ∃ res,
    Config_Check (lib := Demo.lib) (br := Shell.browser) (fs := Shell.files)
      (rt := Demo.runtime) Shell.local_config Shell.root (Returns res None) ∧
    Returns res None ≠ Panics.
Proof.
  split; [discriminate|].
  destruct Shell_check_returns as (res & _ & Hc). exists res. split; [exact Hc|].
  apply (Config_Check_no_panic (lib := Demo.lib) (br := Shell.browser) (fs := Shell.files)
           (rt := Demo.runtime) Shell.local_config Shell.root); [discriminate | exact Hc].
Defined.

Lemma Config_Check_zero_capacity_witness :
  GetAllStories (lib := Demo.lib) (fs := Shell.files) (rt := Demo.runtime) Shell.root
    = ([Shell.small; Shell.withIcon], None) ∧
  FileExists (fs := Shell.files) (Shell.root +:+ "/package.json") = true ∧
  MaxThreads Shell.home_config = 0 ∧
  ∀ o, ¬ Config_Check (lib := Demo.lib) (br := Shell.browser) (fs := Shell.files)
           (rt := Demo.runtime) Shell.home_config Shell.root o.
Proof.
  split; [reflexivity|]. split; [reflexivity|]. split; [reflexivity|].
  apply (proj2 (Config_Check_zero_capacity (lib := Demo.lib) (br := Shell.browser)
                  (fs := Shell.files) (rt := Demo.runtime) Shell.home_config Shell.root
                  _ eq_refl eq_refl eq_refl)).
  discriminate.
Defined.

Lemma Config_Check_negative_capacity_witness :
  GetAllStories (lib := Demo.lib) (fs := Shell.files) (rt := Demo.runtime) Shell.root
    = ([Shell.small; Shell.withIcon], None) ∧
  FileExists (fs := Shell.files) (Shell.root +:+ "/package.json") = true ∧
  MaxThreads (mkConfig "http://localhost:6006" EmptyString (-1)) < 0 ∧
  Config_Check (lib := Demo.lib) (br := Shell.browser) (fs := Shell.files)
    (rt := Demo.runtime) (mkConfig "http://localhost:6006" EmptyString (-1)) Shell.root Panics.
Proof.
  split; [reflexivity|]. split; [reflexivity|]. split; [reflexivity|].
  apply (Config_Check_negative_capacity (lib := Demo.lib) (br := Shell.browser)
           (fs := Shell.files) (rt := Demo.runtime)
           (mkConfig "http://localhost:6006" EmptyString (-1)) Shell.root
           _ eq_refl eq_refl eq_refl).
  reflexivity.
Defined.

Lemma Config_Check_missing_manifest_witness :
  GetAllStories (lib := Demo.lib) (fs := Demo.empty_files) (rt := Demo.runtime) "/proj"
    = ([], None) ∧
  FileExists (fs := Demo.empty_files) "/proj/package.json" = false ∧
  Config_Check (lib := Demo.lib) (br := Demo.browser) (fs := Demo.empty_files)
    (rt := Demo.runtime) (mkConfig "http://localhost:6006" "#storybook-root" (-3)) "/proj"
    (Returns [] (Some "package.json not found in /proj")).
Proof.
  split; [reflexivity|]. split; [reflexivity|].
  apply (Config_Check_missing_manifest (lib := Demo.lib) (br := Demo.browser)
           (fs := Demo.empty_files) (rt := Demo.runtime)
           (mkConfig "http://localhost:6006" "#storybook-root" (-3)) "/proj" [] eq_refl eq_refl).
  reflexivity.
Defined.

Lemma Config_Check_results_created_witness :
  ∃ res r,
    Config_Check (lib := Demo.lib) (br := Shell.browser) (fs := Shell.files)
      (rt := Demo.runtime) Shell.local_config Shell.root (Returns res None) ∧
    r ∈ res ∧
    Status r = "created" ∧ ExpectedTest r = CurrentTest r.
Proof.
  destruct Shell_check_returns as (res & Hres & Hc).
  assert (Hne : ∃ r, r ∈ res).
  { destruct res as [|r res]; [|exists r; apply list_elem_of_here].
    apply Permutation_nil_l in Hres. discriminate Hres. }
  destruct Hne as [r Hr]. exists res, r. split; [exact Hc|]. split; [exact Hr|].
  destruct (Config_Check_results_created (lib := Demo.lib) (br := Shell.browser)
              (fs := Shell.files) (rt := Demo.runtime) Shell.local_config Shell.root
              res r Hc Hr) as (H1 & H2 & _).
  exact (conj H1 H2).
Defined.

Lemma Config_Check_error_names_failures_witness :
  ∃ err,
    Config_Check (lib := Demo.lib) (br := Demo.browser) (fs := Demo.files)
      (rt := Demo.runtime) Demo.config "/proj" (Returns [] (Some err)) ∧
    Story_Check (lib := Demo.lib) (br := Demo.browser) Demo.button 1%nat Demo.config
      = (None, Some "context deadline exceeded") ∧
    Contains err "context deadline exceeded" = true.
Proof.
  destruct Demo_check_fails as (err & Hc). exists err.
  split; [exact Hc|]. split; [reflexivity|].
  destruct (Config_Check_error_names_failures (lib := Demo.lib) (br := Demo.browser)
              (fs := Demo.files) (rt := Demo.runtime) Demo.config "/proj" _ [] err
              1%nat Demo.button "context deadline exceeded" eq_refl eq_refl Hc eq_refl eq_refl)
    as (_ & _ & H).
  exact H.
Defined.

Lemma GetEnvironment_prefers_local_witness :
  GetEnvironment (lib := Demo.lib) (fs := Shell.files) (os := Shell.os) = Value Shell.env ∧
  FileExists (fs := Shell.files) (ConfigPath Shell.env) = true ∧
  GetEnvironment (lib := Demo.lib) (fs := Shell.files_home_only) (os := Shell.os)
    = Value (mkEnvironment "/work" "/home/u" "/home/u/.config/visage.json").
Proof.
  split; [reflexivity|].
  split; [|reflexivity].
  exact (proj1 (proj2 (proj2 (GetEnvironment_prefers_local (lib := Demo.lib)
                                (fs := Shell.files) (os := Shell.os) Shell.env eq_refl)))).
Defined.

Lemma main_unknown_command_witness :
  (2 ≤ length ["visage"; "update"])%nat ∧
  GetEnvironment (lib := Demo.lib) (fs := Shell.files) (os := Shell.os) = Value Shell.env ∧
  LoadConfig (fs := Shell.files) (os := Shell.os) (ConfigPath Shell.env)
    = inr Shell.local_config ∧
  main_run (lib := Demo.lib) (br := Shell.browser) (fs := Shell.files) (rt := Demo.runtime)
    (os := Shell.os) ["visage"; "update"] (Fatal "Unknown command").
Proof.
  split; [simpl; lia|]. split; [reflexivity|]. split; [reflexivity|].
  refine (proj2 (main_unknown_command (lib := Demo.lib) (br := Shell.browser)
                   (fs := Shell.files) (rt := Demo.runtime) (os := Shell.os)
                   ["visage"; "update"] Shell.env Shell.local_config _ _ eq_refl eq_refl _)
                eq_refl); [simpl; lia | discriminate].
Defined.

Lemma main_report_witness :
  ∃ lines,
    main_run (lib := Demo.lib) (br := Shell.browser) (fs := Shell.files) (rt := Demo.runtime)
      (os := Shell.os) ["visage"; "check"] (Value lines) ∧
    ∃ res, lines = report res ∧ length lines = (3 * length res)%nat.
Proof.
  destruct Shell_check_returns as (res & _ & Hc).
  assert (Hrun : main_run (lib := Demo.lib) (br := Shell.browser) (fs := Shell.files)
                   (rt := Demo.runtime) (os := Shell.os) ["visage"; "check"]
                   (Value (report res))).
  { apply (main_check_reported (lib := Demo.lib) (br := Shell.browser) (fs := Shell.files)
             (rt := Demo.runtime) (os := Shell.os) ["visage"; "check"] Shell.env
             Shell.local_config res); [reflexivity | exact Hc]. }
  exists (report res). split; [exact Hrun|].
  destruct (main_report (lib := Demo.lib) (br := Shell.browser) (fs := Shell.files)
              (rt := Demo.runtime) (os := Shell.os) ["visage"; "check"] _ Hrun)
    as (res' & H1 & H2 & _).
  exists res'. exact (conj H1 H2).
Defined.

Lemma main_check_blocks_witness :
  GetEnvironment (lib := Demo.lib) (fs := Shell.files_home_only) (os := Shell.os)
    = Value (mkEnvironment "/work" "/home/u" "/home/u/.config/visage.json") ∧
  LoadConfig (fs := Shell.files_home_only) (os := Shell.os) "/home/u/.config/visage.json"
    = inr Shell.home_config ∧
  MaxThreads Shell.home_config = 0 ∧
  GetAllStories (lib := Demo.lib) (fs := Shell.files_home_only) (rt := Demo.runtime) Shell.root
    = ([Shell.small; Shell.withIcon], None) ∧
  FileExists (fs := Shell.files_home_only) (Shell.root +:+ "/package.json") = true ∧
  (∀ o, ¬ Config_Check (lib := Demo.lib) (br := Shell.browser) (fs := Shell.files_home_only)
            (rt := Demo.runtime) Shell.home_config Shell.root o) ∧
  ∀ lines, ¬ main_run (lib := Demo.lib) (br := Shell.browser) (fs := Shell.files_home_only)
               (rt := Demo.runtime) (os := Shell.os) ["visage"; "check"] (Value lines).
Proof.
  split; [reflexivity|]. split; [reflexivity|]. split; [reflexivity|]. split; [reflexivity|].
  split; [reflexivity|].
  destruct (main_check_blocks (lib := Demo.lib) (br := Shell.browser)
              (fs := Shell.files_home_only) (rt := Demo.runtime) (os := Shell.os)
              ["visage"; "check"]
              (mkEnvironment "/work" "/home/u" "/home/u/.config/visage.json")
              Shell.home_config [Shell.small; Shell.withIcon])
    as (H1 & H2 & _); try reflexivity; try (simpl; lia); try discriminate.
  exact (conj H1 H2).
Defined.

Lemma WalkDir_unreadable_root_witness :
  os_Lstat_tree (FS := Shell.files_locked) "/var/tmp/project"
    = Dir (Some "open: permission denied") [] ∧
  existsb (Contains "/var/tmp/project") builtin_ignoreFiles = true ∧
  GetAllStories (lib := Demo.lib) (fs := Shell.files_locked) (rt := Demo.runtime)
    "/var/tmp/project" = ([], Some "open: permission denied").
Proof.
  split; [reflexivity|]. split; [reflexivity|].
  refine (proj2 (WalkDir_unreadable_root (lib := Demo.lib) (fs := Shell.files_locked)
                   (rt := Demo.runtime) "/var/tmp/project" builtin_ignoreFiles
                   "open: permission denied" _) eq_refl).
  right. exists []. reflexivity.
Defined.

(** ** [Config.Check] without room in the semaphore *)

Section Capacity.
Context `{lib : Lib} {B : Type} `{br : Browser B} `{fs : FS} `{rt : Runtime}.

(** With a capacity of zero or less no goroutine gets past its send on
    [sem]. *)
Lemma init_pool_stays c stories p :
  MaxThreads c ≤ 0 → rtc (step c stories) (init_pool stories) p → p = init_pool stories.
Proof.
  intros Hcap Hrun.
  apply rtc_inv in Hrun as [<- | (p1 & Hstep & _)]; [done|]. exfalso.
  assert (Hsp : ∀ i w, workers (init_pool stories) !! i = Some w → w = Spawned).
  { intros i w. simpl. intros Hw. by apply lookup_replicate in Hw as [-> _]. }
  inversion Hstep as [i p0 Hw Hroom | i j p0 _ Hi Hj | i p0 Hw | i s p0 Hw Hst
                     | i p0 Hw Hpos | i p0 Hw]; subst;
    try (apply Hsp in Hw; discriminate).
  - simpl in Hroom. lia.
  - apply Hsp in Hj. discriminate.
Qed.

(** C3, at a failing input: discovery succeeded, the root holds
    [package.json], there is a story, and [MaxThreads] is zero (the
    value of a configuration without [max_threads]) or negative.  Then
    no goroutine gets past its send on [sem]: in every state that a run
    reaches no story has been checked, the channels are empty and
    [wg.Wait] cannot return.  The call returns nothing, neither the list
    of results nor an error; with a negative [MaxThreads] it panics and
    with zero it has no outcome. *)
Theorem Config_Check_without_capacity c path stories :
  GetAllStories path = (stories, None) →
  FileExists (filepath_Join [path; "package.json"]) = true →
  stories ≠ [] →
  MaxThreads c ≤ 0 →
  (∀ p, rtc (step c stories) (init_pool stories) p →
        Forall (λ w, w = Spawned) (workers p) ∧
        results p = [] ∧ errors p = [] ∧ ¬ all_done p) ∧
  (∀ res err, ¬ Config_Check c path (Returns res err)) ∧
  (MaxThreads c < 0 → ∀ o, Config_Check c path o ↔ o = Panics) ∧
  (MaxThreads c = 0 → ∀ o, ¬ Config_Check c path o).
Proof.
  intros Hst Hpkg Hne Hcap.
  assert (Hpool : ∀ p, rtc (step c stories) (init_pool stories) p →
            Forall (λ w, w = Spawned) (workers p) ∧
            results p = [] ∧ errors p = [] ∧ ¬ all_done p).
  { intros p Hrun. apply init_pool_stays in Hrun as ->; [|done].
    split; [by apply Forall_replicate|]. split; [done|]. split; [done|].
    unfold all_done. simpl. destruct stories as [|s rest]; [done|]. simpl.
    intros Hdone. by apply Forall_cons in Hdone as [? _]. }
  assert (Hout : ∀ o, Config_Check c path o → o = Panics ∧ MaxThreads c < 0).
  { intros o Hcheck.
    destruct Hcheck as [st err H1 | st H1 H2 | st H1 H2 H3 | st p H1 H2 H3 Hrun Hdone];
      try congruence; [done|].
    assert (st = stories) as -> by congruence.
    by destruct (Hpool p Hrun) as (_ & _ & _ & Hnot). }
  split; [exact Hpool|]. split; [|split].
  - intros res err Hcheck. by destruct (Hout _ Hcheck).
  - intros Hneg o. split; [intros Hcheck; by destruct (Hout _ Hcheck)|].
    intros ->. by eapply Check_negative_capacity.
  - intros Hzero o Hcheck. destruct (Hout _ Hcheck). lia.
Qed.
End Capacity.

Lemma Config_Check_without_capacity_witness :
  GetAllStories (lib := Demo.lib) (fs := Shell.files) (rt := Demo.runtime) Shell.root
    = ([Shell.small; Shell.withIcon], None) ∧
  FileExists (fs := Shell.files) (Shell.root +:+ "/package.json") = true ∧
  MaxThreads Shell.home_config ≤ 0 ∧
  Story_Check (lib := Demo.lib) (br := Shell.browser) Shell.small 0%nat Shell.home_config
    = (Some (mkRegressionTestResult "created"
               (mkRegressionTest "Small" "full" "md5(<i/>)" "sha1(<i/>)" "bhPNG" 0)
               (mkRegressionTest "Small" "full" "md5(<i/>)" "sha1(<i/>)" "bhPNG" 0)), None) ∧
  ∀ res err,
    ¬ Config_Check (lib := Demo.lib) (br := Shell.browser) (fs := Shell.files)
        (rt := Demo.runtime) Shell.home_config Shell.root (Returns res err).
Proof.
  split; [reflexivity|]. split; [reflexivity|]. split; [discriminate|].
  split; [reflexivity|].
  refine (proj1 (proj2 (Config_Check_without_capacity (lib := Demo.lib) (br := Shell.browser)
                          (fs := Shell.files) (rt := Demo.runtime) Shell.home_config
                          Shell.root _ eq_refl eq_refl _ _))); discriminate.
Defined.
